(** * Infrared: the status packet, the Bedrock connection processor and the
      root command, embedded and verified.

    The development follows the three source files:
    - [status] (the Java client-bound status response packet),
    - [bedrock/conn_processer.go] ([ConnProcessor.ProcessConn]),
    - [cmd/root.go] ([newLogger], [safeWriteFromEmbeddedFS], [onConfigChange]
      and the root command's [RunE]).

    Go functions that return [(value, error)] are embedded as pairs whose
    second component is [option error] ([None] is Go's [nil]); a callee whose
    value is ignored on error is embedded as a sum [error + A]. *)

From Stdlib Require Import ZArith List String Ascii Bool Lia.
From Stdlib.Strings Require Import Byte.
From stdpp Require Import gmap strings.
Import ListNotations.

Local Open Scope Z_scope.

(** ** Go basics shared by the packages *)

Module Go.

Inductive Errno : Type := ENOENT | EEXIST | EACCES | ENOTDIR | EISDIR | EIO.

(** The [error] values of the three files: [errors.New], [fmt.Errorf] with
    one argument, [*net.AddrError] and [*fs.PathError]. *)
Inductive error : Type :=
| errors_New (msg : string)
| fmt_Errorf (format arg : string)
| AddrError (Err Addr : string)
| PathError (Op Path : string) (Err : Errno).

Definition Result (A : Type) : Type := (error + A)%type.

(** [uint32(z)] and [int32(z)]: conversion with wrap-around. *)
Definition uint32 (z : Z) : Z := z mod 2 ^ 32.
Definition int32 (z : Z) : Z := (z + 2 ^ 31) mod 2 ^ 32 - 2 ^ 31.

(** [byte(z)] keeps the low eight bits. *)
Definition byte_of_Z (z : Z) : byte :=
  match Byte.of_N (Z.to_N (z mod 256)) with
  | Some b => b
  | None => x00
  end.

Definition Z_of_byte (b : byte) : Z := Z.of_N (Byte.to_N b).

(** [[]byte(s)] and [string(bb)]. *)
Definition bytes_of_string (s : string) : list byte := list_byte_of_string s.
Definition string_of_bytes (bb : list byte) : string := string_of_list_byte bb.

Lemma Z_of_byte_range (b : byte) : 0 <= Z_of_byte b < 256.
Proof.
  unfold Z_of_byte. pose proof (Byte.to_N_bounded b) as Hb. lia.
Qed.




End Go.

(** ** Package [java/protocol] *)

Module Protocol.
Import Go.

(** Modelled from the spec: the package [internal/pkg/java/protocol]
    ([Packet], [MarshalPacket], [Packet.Scan], [String], [VarInt] and
    [ErrInvalidPacketID]) is not among the sources. Section 4.1 gives the Java
    framing as [varint(length) || varint(id) || payload] with typed marshal
    and unmarshal of the packets' fields; a packet is kept here as its ID and
    its payload, the way the status package uses it ([packet.ID],
    [packet.Scan]). *)
Record Packet : Type := mkPacket { ID : byte; Data : list byte }.

(** Modelled from the spec: the error the [Unexpected] class of section 4.1
    stands for (an ID this stage does not accept), and the decoder's own. *)
Definition ErrInvalidPacketID : error := errors_New "invalid packet id".
Definition ErrVarIntTooBig : error := errors_New "VarInt is too big".
Definition EOF : error := errors_New "EOF".
Definition ErrUnexpectedEOF : error := errors_New "unexpected EOF".
Definition ErrNegativeLength : error := errors_New "negative length".

(** Modelled from the spec: [VarInt], the protocol's variable-length 32-bit
    integer (section 4.1, "varint"): seven bits a byte, low group first, the
    high bit of a byte set when another byte follows; five bytes at most. *)
Definition VarInt : Type := Z.

Fixpoint VarInt_Encode_loop (fuel : nat) (num : Z) : list byte :=
  match fuel with
  | O => []
  | S fuel' =>
      let b := Z.land num 0x7F in
      let num' := Z.shiftr num 7 in
      if num' =? 0 then [byte_of_Z b]
      else byte_of_Z (Z.lor b 0x80) :: VarInt_Encode_loop fuel' num'
  end.

(** Five rounds empty any 32-bit value ([VarInt_Encode_loop_enough]). *)
Definition VarInt_Encode (v : VarInt) : list byte :=
  VarInt_Encode_loop 5 (uint32 v).

Fixpoint VarInt_Decode_loop (fuel : nat) (i n : Z) (r : list byte)
  : Result (Z * list byte) :=
  match fuel with
  | O => inl ErrVarIntTooBig
  | S fuel' =>
      match r with
      | [] => inl EOF
      | sec :: r' =>
          let n' := Z.lor n (uint32 (Z.shiftl (Z.land (Z_of_byte sec) 0x7F) (7 * i))) in
          if 5 <=? i then inl ErrVarIntTooBig
          else if Z.land (Z_of_byte sec) 0x80 =? 0 then inr (n', r')
          else VarInt_Decode_loop fuel' (i + 1) n' r'
      end
  end.

(** The reader is the list of bytes not read yet; a decoder returns what is
    left of it. *)
Definition VarInt_Decode (r : list byte) : Result (VarInt * list byte) :=
  match VarInt_Decode_loop 6 0 0 r with
  | inl e => inl e
  | inr (n, r') => inr (int32 n, r')
  end.

(** Modelled from the spec: [String], a [VarInt] byte count followed by the
    bytes of the string. *)
Definition String_Encode (s : string) : list byte :=
  let byteString := bytes_of_string s in
  VarInt_Encode (int32 (Z.of_nat (List.length byteString))) ++ byteString.

Definition String_Decode (r : list byte) : Result (string * list byte) :=
  match VarInt_Decode r with
  | inl e => inl e
  | inr (l, r') =>
      if l <? 0 then inl ErrNegativeLength
      else if Z.of_nat (List.length r') <? l then inl ErrUnexpectedEOF
      else inr (string_of_bytes (firstn (Z.to_nat l) r'), skipn (Z.to_nat l) r')
  end.

(** The values behind the [FieldEncoder] and [FieldDecoder] interfaces. *)
Inductive Field : Type :=
| FString (s : string)
| FVarInt (v : VarInt).


(** [Decode] fills the field a pointer designates: the field's kind is that
    of the value it held. *)
Definition Decode (f : Field) (r : list byte) : Result (Field * list byte) :=
  match f with
  | FString _ =>
      match String_Decode r with
      | inl e => inl e
      | inr (s, r') => inr (FString s, r')
      end
  | FVarInt _ =>
      match VarInt_Decode r with
      | inl e => inl e
      | inr (v, r') => inr (FVarInt v, r')
      end
  end.


(** Modelled from the spec: [ScanFields] decodes the fields in turn from the
    reader and stops at the first error; the fields decoded so far keep their
    new values. *)
Fixpoint ScanFields (r : list byte) (fields : list Field)
  : list Field * option error :=
  match fields with
  | [] => ([], None)
  | f :: fields' =>
      match Decode f r with
      | inl e => (f :: fields', Some e)
      | inr (f', r') =>
          let '(done, err) := ScanFields r' fields' in (f' :: done, err)
      end
  end.

Definition Scan (pk : Packet) (fields : list Field) : list Field * option error :=
  ScanFields (Data pk) fields.

(** The [String] a scanned field list holds at its head. *)
Definition String_of (fields : list Field) (old : string) : string :=
  match fields with
  | FString s :: _ => s
  | _ => old
  end.

(** *** The codec's round trips *)

Example VarInt_Encode_300 : VarInt_Encode 300 = [xac; x02].
Proof. reflexivity. Qed.

Example VarInt_Encode_minus_1 : VarInt_Encode (-1) = [xff; xff; xff; xff; x0f].
Proof. reflexivity. Qed.

Example VarInt_Decode_max :
  VarInt_Decode [xff; xff; xff; xff; x07; x2a] = inr (2147483647, [x2a]).
Proof. reflexivity. Qed.

Example VarInt_Decode_six_bytes :
  VarInt_Decode [x80; x80; x80; x80; x80; x01] = inl ErrVarIntTooBig.
Proof. reflexivity. Qed.

Example String_Encode_ok : String_Encode "ok" = [x02; x6f; x6b].
Proof. reflexivity. Qed.










Lemma VarInt_Encode_loop_enough (f : nat) :
  forall (g : nat) (num : Z),
    (1 <= f <= g)%nat -> 0 <= num < 2 ^ (7 * Z.of_nat f) ->
    VarInt_Encode_loop g num = VarInt_Encode_loop f num.
Proof.
  induction f as [|f IH]; intros g num Hfg Hnum; [lia|].
  destruct g as [|g]; [lia|].
  cbn [VarInt_Encode_loop].
  destruct (Z.shiftr num 7 =? 0) eqn:Hz; [reflexivity|].
  apply Z.eqb_neq in Hz. f_equal.
  assert (Hq : 0 <= Z.shiftr num 7 < 2 ^ (7 * Z.of_nat f)).
  { rewrite Z.shiftr_div_pow2 by lia. change (2 ^ 7) with 128.
    split; [apply Z.div_pos; lia|].
    apply Z.div_lt_upper_bound; [lia|].
    replace (7 * Z.of_nat (S f)) with (7 + 7 * Z.of_nat f) in Hnum by lia.
    rewrite Z.pow_add_r in Hnum by lia. change (2 ^ 7) with 128 in Hnum. lia. }
  apply IH; [|exact Hq].
  destruct f as [|f']; [|lia]. change (2 ^ (7 * Z.of_nat 0)) with 1 in Hq. lia.
Qed.






End Protocol.

(** ** Package [java/protocol/status] *)

Module Status.
Import Go Protocol.

Definition ClientBoundResponsePacketID : byte := x00.

Record ClientBoundResponse : Type := mkClientBoundResponse
  { JSONResponse : string }.

(** The zero value of [var pk ClientBoundResponse]. *)
Definition zero_ClientBoundResponse : ClientBoundResponse :=
  {| JSONResponse := EmptyString |}.





Section Unmarshal.

(** [packet.Scan], of the absent [protocol] package: it gets the packet and
    the fields the pointers designate, and returns the fields as it leaves
    them with its error. *)
Variable Packet_Scan : Packet -> list Field -> list Field * option error.

Definition UnmarshalClientBoundResponse (packet : Packet)
  : ClientBoundResponse * option error :=
  let pk := zero_ClientBoundResponse in
  if negb (Byte.eqb (ID packet) ClientBoundResponsePacketID) then
    (pk, Some ErrInvalidPacketID)
  else
    let '(fields, err) := Packet_Scan packet [FString (JSONResponse pk)] in
    let pk := {| JSONResponse := String_of fields (JSONResponse pk) |} in
    match err with
    | Some e => (pk, Some e)
    | None => (pk, None)
    end.

(** C8: a packet whose ID is not the status response's is refused with
    [ErrInvalidPacketID] and the zero value, whatever [packet.Scan] would do
    and whatever the payload holds: the payload is not read. *)
Theorem UnmarshalClientBoundResponse_invalid_ID (packet : Packet) :
  ID packet <> ClientBoundResponsePacketID ->
  UnmarshalClientBoundResponse packet
  = (zero_ClientBoundResponse, Some ErrInvalidPacketID).
Proof.
  intros Hid. unfold UnmarshalClientBoundResponse.
  destruct (Byte.eqb (ID packet) ClientBoundResponsePacketID) eqn:E.
  - apply Byte.byte_dec_bl in E. contradiction.
  - reflexivity.
Qed.

End Unmarshal.









Lemma UnmarshalClientBoundResponse_ID_1 :
  UnmarshalClientBoundResponse Scan {| ID := x01; Data := [x02; x7b; x7d] |}
  = (zero_ClientBoundResponse, Some ErrInvalidPacketID).
Proof.
  apply (UnmarshalClientBoundResponse_invalid_ID Scan). discriminate.
Defined.

End Status.

(** ** The Go standard library functions the processor calls *)

Module GoStd.
Import Go.

(** [len(s)] and [s[lo:hi]] on byte strings. *)
Definition len (s : string) : Z := Z.of_nat (String.length s).

Definition slice (s : string) (lo hi : Z) : string :=
  String.substring (Z.to_nat lo) (Z.to_nat (hi - lo)) s.

(** [s[i]]; the callers index inside the string only. *)
Definition at_index (s : string) (i : Z) : ascii :=
  match String.get (Z.to_nat i) s with
  | Some a => a
  | None => zero
  end.

(** [bytealg.IndexByteString]: the first index of [c] in [s], or [-1]. *)
Fixpoint IndexByteString (s : string) (c : ascii) : Z :=
  match s with
  | EmptyString => -1
  | String a s' =>
      if Ascii.eqb a c then 0
      else let r := IndexByteString s' c in
           if r <? 0 then -1 else r + 1
  end.

(** [bytealg.LastIndexByteString]: the last index of [c] in [s], or [-1]. *)
Fixpoint LastIndexByteString (s : string) (c : ascii) : Z :=
  match s with
  | EmptyString => -1
  | String a s' =>
      let r := LastIndexByteString s' c in
      if 0 <=? r then r + 1
      else if Ascii.eqb a c then 0 else -1
  end.

(** [strings.Contains(s, substr)]: [substr] starts at some index of [s]. *)
Fixpoint strings_Contains (s substr : string) : bool :=
  String.prefix substr s
  || match s with
     | EmptyString => false
     | String _ s' => strings_Contains s' substr
     end.

Definition missingPort : string := "missing port in address"%string.
Definition tooManyColons : string := "too many colons in address"%string.

Definition addrErr (addr why : string) : string * string * option error :=
  (EmptyString, EmptyString, Some (AddrError why addr)).

(** [net.SplitHostPort], from the standard library's [net/ipsock.go]. *)
Definition net_SplitHostPort (hostport : string) : string * string * option error :=
  let i := LastIndexByteString hostport ":"%char in
  if i <? 0 then addrErr hostport missingPort
  else
    let bracketed :=
      if Ascii.eqb (at_index hostport 0) "["%char then
        let end_ := IndexByteString hostport "]"%char in
        if end_ <? 0 then inl (addrErr hostport "missing ']' in address"%string)
        else if end_ + 1 =? len hostport then inl (addrErr hostport missingPort)
        else if end_ + 1 =? i then inr (slice hostport 1 end_, 1, end_ + 1)
        else if Ascii.eqb (at_index hostport (end_ + 1)) ":"%char
             then inl (addrErr hostport tooManyColons)
             else inl (addrErr hostport missingPort)
      else
        let host := slice hostport 0 i in
        if 0 <=? IndexByteString host ":"%char then inl (addrErr hostport tooManyColons)
        else inr (host, 0, 0)
    in
    match bracketed with
    | inl failure => failure
    | inr (host, j, k) =>
        if 0 <=? IndexByteString (slice hostport j (len hostport)) "["%char
        then addrErr hostport "unexpected '[' in address"%string
        else if 0 <=? IndexByteString (slice hostport k (len hostport)) "]"%char
        then addrErr hostport "unexpected ']' in address"%string
        else (host, slice hostport (i + 1) (len hostport), None)
    end.

(** [c] does not occur in [s]. *)
Definition absent (c : ascii) (s : string) : Prop := IndexByteString s c = -1.

(** *** Facts about the string functions *)

Lemma append_cons (c : ascii) (a b : string) :
  (String c a +:+ b = String c (a +:+ b))%string.
Proof. reflexivity. Qed.

Lemma append_nil (b : string) : (EmptyString +:+ b = b)%string.
Proof. reflexivity. Qed.

Lemma substring_add (s : string) :
  forall n a b : nat,
    String.substring n (a + b) s
    = (String.substring n a s +:+ String.substring (n + a) b s)%string.
Proof.
  induction s as [|c s IH]; intros n a b.
  - destruct n, a, b; reflexivity.
  - destruct n as [|n].
    + destruct a as [|a]; cbn [Nat.add String.substring].
      * destruct b; reflexivity.
      * rewrite append_cons. f_equal. apply (IH 0%nat a b).
    + cbn [Nat.add String.substring]. apply IH.
Qed.

Lemma substring_all (s : string) : String.substring 0 (String.length s) s = s.
Proof. induction s as [|c s IH]; cbn; [reflexivity | f_equal; exact IH]. Qed.

Lemma substring_prefix (pre x : string) :
  String.substring 0 (String.length pre) (pre +:+ x) = pre.
Proof.
  induction pre as [|c pre IH].
  - destruct x; reflexivity.
  - rewrite append_cons. cbn [String.length String.substring]. f_equal. exact IH.
Qed.

Lemma substring_skip (pre x : string) (k m : nat) :
  String.substring (String.length pre + k) m (pre +:+ x) = String.substring k m x.
Proof.
  induction pre as [|c pre IH]; [reflexivity|].
  rewrite append_cons. cbn [String.length Nat.add String.substring]. exact IH.
Qed.

Lemma length_append (a b : string) :
  String.length (a +:+ b) = (String.length a + String.length b)%nat.
Proof.
  induction a as [|c a IH]; [reflexivity|].
  rewrite append_cons. cbn [String.length Nat.add]. f_equal. exact IH.
Qed.

Lemma append_inj_length (a b a' b' : string) :
  (a +:+ b = a' +:+ b')%string -> String.length a = String.length a' ->
  a = a' /\ b = b'.
Proof.
  revert a'. induction a as [|c a IH]; intros [|c' a'] Heq Hlen;
    try discriminate Hlen.
  - split; [reflexivity | exact Heq].
  - rewrite !append_cons in Heq.
    injection Heq as -> Heq. injection Hlen as Hlen.
    destruct (IH a' Heq Hlen) as [-> ->]. split; reflexivity.
Qed.

Lemma IndexByteString_lower (s : string) (c : ascii) : -1 <= IndexByteString s c.
Proof.
  induction s as [|a s IH]; cbn; [lia|].
  destruct (Ascii.eqb a c); [lia|].
  destruct (IndexByteString s c <? 0) eqn:E; [lia|]. apply Z.ltb_ge in E. lia.
Qed.

Lemma LastIndexByteString_lower (s : string) (c : ascii) : -1 <= LastIndexByteString s c.
Proof.
  induction s as [|a s IH]; cbn; [lia|].
  destruct (0 <=? LastIndexByteString s c) eqn:E; [apply Z.leb_le in E; lia|].
  destruct (Ascii.eqb a c); lia.
Qed.

Lemma absent_cons (c a : ascii) (s : string) :
  absent c (String a s) <-> a <> c /\ absent c s.
Proof.
  unfold absent. cbn. pose proof (IndexByteString_lower s c) as Hl.
  destruct (Ascii.eqb_spec a c) as [->|Hne].
  - split; [lia | intros [H _]; contradiction].
  - destruct (IndexByteString s c <? 0) eqn:E.
    + apply Z.ltb_lt in E. split; [intros _; split; [exact Hne | lia] | reflexivity].
    + apply Z.ltb_ge in E. split; [lia | intros [_ H]; lia].
Qed.

Lemma LastIndexByteString_absent (s : string) (c : ascii) :
  LastIndexByteString s c = -1 <-> absent c s.
Proof.
  induction s as [|a s IH].
  - unfold absent. cbn. tauto.
  - rewrite absent_cons, <- IH. cbn.
    pose proof (LastIndexByteString_lower s c) as Hl.
    destruct (0 <=? LastIndexByteString s c) eqn:E.
    + apply Z.leb_le in E. split; [lia | intros [_ H]; lia].
    + apply Z.leb_gt in E. destruct (Ascii.eqb_spec a c) as [->|Hne].
      * split; [lia | intros [H _]; contradiction].
      * split; [intros _; split; [exact Hne | lia] | reflexivity].
Qed.

Lemma IndexByteString_split (s : string) (c : ascii) :
  0 <= IndexByteString s c ->
  exists pre post,
    s = (pre +:+ String c post)%string
    /\ len pre = IndexByteString s c /\ absent c pre.
Proof.
  induction s as [|a s IH]; cbn; [lia|].
  destruct (Ascii.eqb_spec a c) as [->|Hne].
  - intros _. exists EmptyString, s. repeat split.
  - destruct (IndexByteString s c <? 0) eqn:E; [lia|]. apply Z.ltb_ge in E.
    intros _. destruct (IH E) as (pre & post & -> & Hlen & Habs).
    exists (String a pre), post. split; [reflexivity|]. split.
    + unfold len in *. cbn [String.length]. lia.
    + apply absent_cons. split; assumption.
Qed.

Lemma LastIndexByteString_split (s : string) (c : ascii) :
  0 <= LastIndexByteString s c ->
  exists pre post,
    s = (pre +:+ String c post)%string
    /\ len pre = LastIndexByteString s c /\ absent c post.
Proof.
  induction s as [|a s IH]; cbn; [lia|].
  destruct (0 <=? LastIndexByteString s c) eqn:E.
  - apply Z.leb_le in E. intros _.
    destruct (IH E) as (pre & post & -> & Hlen & Habs).
    exists (String a pre), post. split; [reflexivity|]. split; [|exact Habs].
    unfold len in *. cbn [String.length]. lia.
  - apply Z.leb_gt in E.
    destruct (Ascii.eqb_spec a c) as [->|Hne]; [|lia].
    intros _. exists EmptyString, s. split; [reflexivity|]. split; [reflexivity|].
    apply LastIndexByteString_absent.
    pose proof (LastIndexByteString_lower s c). lia.
Qed.

Lemma strings_Contains_byte (s : string) (c : ascii) :
  strings_Contains s (String c EmptyString) = true <-> 0 <= LastIndexByteString s c.
Proof.
  induction s as [|a s IH]; cbn.
  - split; [discriminate | lia].
  - pose proof (LastIndexByteString_lower s c) as Hl.
    destruct (0 <=? LastIndexByteString s c) eqn:E.
    + apply Z.leb_le in E. rewrite orb_true_iff. split; [lia|].
      intros _. right. apply IH. exact E.
    + apply Z.leb_gt in E. rewrite orb_true_iff.
      destruct (Ascii.eqb_spec a c) as [->|Hne].
      * split; [lia|]. intros _. left.
        destruct (Ascii.ascii_dec c c); [|contradiction]. destruct s; reflexivity.
      * split; [|lia]. intros [H|H].
        -- destruct (Ascii.ascii_dec c a) as [->|]; [contradiction | discriminate].
        -- apply IH in H. lia.
Qed.

Lemma append_assoc (a b c : string) : ((a +:+ b) +:+ c = a +:+ (b +:+ c))%string.
Proof.
  induction a as [|x a IH]; [reflexivity|].
  rewrite !append_cons. f_equal. exact IH.
Qed.

Lemma len_nonneg (s : string) : 0 <= len s.
Proof. unfold len. lia. Qed.

Lemma slice_prefix (pre x : string) : slice (pre +:+ x) 0 (len pre) = pre.
Proof.
  unfold slice, len. rewrite Z.sub_0_r, Nat2Z.id. apply substring_prefix.
Qed.

Lemma slice_suffix (pre : string) (c : ascii) (post : string) :
  slice (pre +:+ String c post) (len pre + 1) (len (pre +:+ String c post)) = post.
Proof.
  unfold slice, len. rewrite length_append. cbn [String.length].
  replace (Z.to_nat (Z.of_nat (String.length pre) + 1))
    with (String.length pre + 1)%nat by lia.
  replace (Z.to_nat (Z.of_nat (String.length pre + S (String.length post))
                     - (Z.of_nat (String.length pre) + 1)))
    with (String.length post) by lia.
  rewrite substring_skip. cbn [String.substring]. apply substring_all.
Qed.

Lemma at_index_append (pre : string) (c : ascii) (post : string) :
  at_index (pre +:+ String c post) (len pre) = c.
Proof.
  unfold at_index, len. rewrite Nat2Z.id.
  induction pre as [|a pre IH]; [reflexivity|].
  rewrite append_cons. cbn [String.length String.get]. exact IH.
Qed.

(** What [net.SplitHostPort] returns when it returns no error: the address
    is [host:port] with no colon in either part, or [[host]:port] with the
    brackets left out of the host. *)
Lemma net_SplitHostPort_plain (s h p : string) :
  net_SplitHostPort s = (h, p, None) ->
  at_index s 0 <> "["%char ->
  s = (h +:+ ":" +:+ p)%string /\ absent ":" h /\ absent ":" p
  /\ h = slice s 0 (LastIndexByteString s ":").
Proof.
  unfold net_SplitHostPort, addrErr. intros H Hb.
  destruct (LastIndexByteString s ":" <? 0) eqn:Ei; [discriminate H|].
  apply Z.ltb_ge in Ei.
  destruct (Ascii.eqb_spec (at_index s 0) "["%char) as [E|_]; [contradiction|].
  destruct (0 <=? IndexByteString (slice s 0 (LastIndexByteString s ":")) ":") eqn:Eh;
    [discriminate H|].
  apply Z.leb_gt in Eh.
  destruct (0 <=? IndexByteString (slice s 0 (len s)) "[") ; [discriminate H|].
  destruct (0 <=? IndexByteString (slice s 0 (len s)) "]") ; [discriminate H|].
  injection H as <- <-.
  destruct (LastIndexByteString_split s ":" Ei) as (pre & post & Hs & Hlen & Habs).
  rewrite <- Hlen in *. clear Hlen. subst s.
  rewrite slice_prefix in *. rewrite slice_suffix.
  repeat split; try assumption.
  unfold absent. pose proof (IndexByteString_lower pre ":"). lia.
Qed.

Lemma net_SplitHostPort_bracket (s h p : string) :
  net_SplitHostPort s = (h, p, None) ->
  at_index s 0 = "["%char ->
  s = ("[" +:+ h +:+ "]:" +:+ p)%string /\ absent "]" h /\ absent ":" p.
Proof.
  unfold net_SplitHostPort, addrErr. intros H Hb.
  destruct (LastIndexByteString s ":" <? 0) eqn:Ei; [discriminate H|].
  apply Z.ltb_ge in Ei.
  rewrite Hb in H. cbn [Ascii.eqb Bool.eqb] in H. cbv iota in H.
  destruct (IndexByteString s "]" <? 0) eqn:Ee; [discriminate H|].
  apply Z.ltb_ge in Ee.
  destruct (IndexByteString s "]" + 1 =? len s); [discriminate H|].
  destruct (IndexByteString s "]" + 1 =? LastIndexByteString s ":") eqn:Eq;
    [|destruct (Ascii.eqb (at_index s (IndexByteString s "]" + 1)) ":"); discriminate H].
  apply Z.eqb_eq in Eq.
  destruct (0 <=? IndexByteString (slice s 1 (len s)) "[") ; [discriminate H|].
  destruct (0 <=? IndexByteString (slice s (IndexByteString s "]" + 1) (len s)) "]");
    [discriminate H|].
  injection H as <- <-.
  destruct (IndexByteString_split s "]" Ee) as (pre2 & post2 & Hs2 & Hlen2 & Habs2).
  destruct (LastIndexByteString_split s ":" Ei) as (pre & post & Hs & Hlen & Habs).
  rewrite <- Hlen. rewrite <- Hlen2 in *.
  destruct pre2 as [|a h'].
  { rewrite Hs2 in Hb. discriminate Hb. }
  assert (Ha : a = "["%char).
  { rewrite Hs2 in Hb. exact Hb. }
  subst a. apply absent_cons in Habs2. destruct Habs2 as [_ Habs2].
  assert (Hhost : slice s 1 (len (String "[" h')) = h').
  { rewrite Hs2. unfold slice, len. cbn [String.length].
    replace (Z.to_nat (Z.of_nat (S (String.length h')) - 1)) with (String.length h') by lia.
    rewrite append_cons. change (Z.to_nat 1) with 1%nat. cbn [String.substring].
    apply substring_prefix. }
  rewrite Hhost.
  assert (Hport : slice s (len pre + 1) (len s) = post).
  { rewrite Hs. apply slice_suffix. }
  rewrite Hport.
  assert (Hpre : (String "[" h' +:+ "]")%string = pre /\ post2 = String ":" post).
  { apply append_inj_length.
    - rewrite append_assoc.
      change ("]" +:+ post2)%string with (String "]" post2).
      rewrite <- Hs2. exact Hs.
    - unfold len in *. rewrite length_append. cbn [String.length] in *. lia. }
  destruct Hpre as [Hpre Hpost2].
  split; [|split; assumption].
  rewrite Hs2, Hpost2. rewrite !append_cons. f_equal.
Qed.

(** *** Which addresses [net.SplitHostPort] accepts *)

Lemma absent_append (c : ascii) (a b : string) :
  absent c (a +:+ b) <-> absent c a /\ absent c b.
Proof.
  induction a as [|x a IH].
  - rewrite append_nil. unfold absent at 2. cbn. tauto.
  - rewrite append_cons, !absent_cons, IH. tauto.
Qed.

Lemma IndexByteString_append_found (pre x : string) (c : ascii) :
  0 <= IndexByteString pre c ->
  IndexByteString (pre +:+ x) c = IndexByteString pre c.
Proof.
  induction pre as [|a pre IH]; cbn [IndexByteString]; [lia|].
  rewrite append_cons. cbn [IndexByteString].
  destruct (Ascii.eqb a c); [reflexivity|].
  destruct (IndexByteString pre c <? 0) eqn:E; [lia|].
  pose proof E as E'. apply Z.ltb_ge in E'. intros _. rewrite (IH E'), E. reflexivity.
Qed.

Lemma IndexByteString_append_absent (pre post : string) (c : ascii) :
  absent c pre -> IndexByteString (pre +:+ String c post) c = len pre.
Proof.
  induction pre as [|a pre IH]; intros Habs.
  - rewrite append_nil. cbn. rewrite Ascii.eqb_refl. reflexivity.
  - apply absent_cons in Habs. destruct Habs as [Hne Habs].
    rewrite append_cons. cbn [IndexByteString].
    destruct (Ascii.eqb_spec a c) as [E|_]; [contradiction|].
    rewrite (IH Habs). unfold len. cbn [String.length].
    destruct (Z.of_nat (String.length pre) <? 0) eqn:E; [apply Z.ltb_lt in E; lia | lia].
Qed.

Lemma LastIndexByteString_append (pre post : string) (c : ascii) :
  absent c post -> LastIndexByteString (pre +:+ String c post) c = len pre.
Proof.
  intros Habs. apply LastIndexByteString_absent in Habs.
  induction pre as [|a pre IH].
  - rewrite append_nil. cbn [LastIndexByteString]. rewrite Habs.
    cbn. rewrite Ascii.eqb_refl. reflexivity.
  - rewrite append_cons. cbn [LastIndexByteString]. rewrite IH.
    unfold len. cbn [String.length].
    destruct (0 <=? Z.of_nat (String.length pre)) eqn:E; [lia | apply Z.leb_gt in E; lia].
Qed.

Lemma slice_all (s : string) : slice s 0 (len s) = s.
Proof. unfold slice, len. rewrite Z.sub_0_r, Nat2Z.id. apply substring_all. Qed.

Lemma at_index_0_append (h : string) (c : ascii) (post : string) (x : ascii) :
  absent x h -> c <> x -> at_index (h +:+ String c post) 0 <> x.
Proof.
  intros Habs Hc. destruct h as [|a h].
  - rewrite append_nil. exact Hc.
  - rewrite append_cons. apply absent_cons in Habs. exact (proj1 Habs).
Qed.

(** An address [host:port] whose parts hold no colon and no bracket splits
    into its parts; the port may be any such text, empty too. *)
Lemma net_SplitHostPort_host_port (h p : string) :
  absent ":" h -> absent "[" h -> absent "]" h ->
  absent ":" p -> absent "[" p -> absent "]" p ->
  net_SplitHostPort (h +:+ String ":" p) = (h, p, None).
Proof.
  intros Hc Ho Hcl Hpc Hpo Hpcl. unfold net_SplitHostPort.
  rewrite (LastIndexByteString_append h p ":" Hpc).
  replace (len h <? 0) with false by (symmetry; apply Z.ltb_ge; unfold len; lia).
  destruct (Ascii.eqb_spec (at_index (h +:+ String ":" p) 0) "["%char) as [E|_].
  { exfalso. revert E. apply at_index_0_append; [exact Ho | discriminate]. }
  rewrite slice_prefix, Hc. cbn [Z.leb Z.compare].
  rewrite slice_all.
  assert (Hao : absent "[" (h +:+ String ":" p)).
  { apply absent_append. split; [exact Ho|]. apply absent_cons. split; [discriminate | exact Hpo]. }
  assert (Hacl : absent "]" (h +:+ String ":" p)).
  { apply absent_append. split; [exact Hcl|]. apply absent_cons. split; [discriminate | exact Hpcl]. }
  rewrite Hao, Hacl. cbn [Z.leb Z.compare].
  rewrite slice_suffix. reflexivity.
Qed.

(** An address with two colons or more that does not start with a bracket
    (a bare IPv6 address, say) is refused. *)
Lemma net_SplitHostPort_too_many_colons (s : string) :
  at_index s 0 <> "["%char ->
  0 <= IndexByteString s ":" < LastIndexByteString s ":" ->
  net_SplitHostPort s = addrErr s tooManyColons.
Proof.
  intros Hb [Hfirst Hlt]. unfold net_SplitHostPort.
  assert (Hlast : 0 <= LastIndexByteString s ":") by lia.
  replace (LastIndexByteString s ":" <? 0) with false by (symmetry; apply Z.ltb_ge; lia).
  destruct (Ascii.eqb_spec (at_index s 0) "["%char) as [E|_]; [contradiction|].
  destruct (LastIndexByteString_split s ":" Hlast) as (pre & post & Hs & Hlen & Habs).
  rewrite <- Hlen. rewrite Hs at 1. rewrite slice_prefix.
  assert (Hpre : 0 <= IndexByteString pre ":").
  { pose proof (IndexByteString_lower pre ":") as Hl.
    destruct (Z.eq_dec (IndexByteString pre ":") (-1)) as [E|E]; [|lia].
    pose proof (IndexByteString_append_absent pre post ":" E) as Hi.
    rewrite <- Hs in Hi. lia. }
  replace (0 <=? IndexByteString pre ":") with true by (symmetry; apply Z.leb_le; exact Hpre).
  reflexivity.
Qed.

Lemma len_append (a b : string) : len (a +:+ b) = len a + len b.
Proof. unfold len. rewrite length_append. lia. Qed.

Lemma slice_drop (pre x : string) :
  slice (pre +:+ x) (len pre) (len (pre +:+ x)) = x.
Proof.
  unfold slice. rewrite len_append. unfold len.
  replace (Z.to_nat (Z.of_nat (String.length pre))) with (String.length pre + 0)%nat by lia.
  replace (Z.to_nat (Z.of_nat (String.length pre) + Z.of_nat (String.length x)
                     - Z.of_nat (String.length pre))) with (String.length x) by lia.
  rewrite substring_skip. apply substring_all.
Qed.

Lemma slice_between (pre mid post : string) :
  slice (pre +:+ mid +:+ post) (len pre) (len pre + len mid) = mid.
Proof.
  unfold slice, len.
  replace (Z.to_nat (Z.of_nat (String.length pre))) with (String.length pre + 0)%nat by lia.
  replace (Z.to_nat (Z.of_nat (String.length pre) + Z.of_nat (String.length mid)
                     - Z.of_nat (String.length pre))) with (String.length mid) by lia.
  rewrite substring_skip. apply substring_prefix.
Qed.

Ltac len_lia := rewrite ?len_append; unfold len; cbn [String.length]; lia.

(** An address [[host]:port] splits into the host without its brackets and
    the port; the host may hold colons (an IPv6 literal). *)
Lemma net_SplitHostPort_bracketed (h p : string) :
  absent "[" h -> absent "]" h ->
  absent ":" p -> absent "[" p -> absent "]" p ->
  net_SplitHostPort ("[" +:+ h +:+ "]:" +:+ p) = (h, p, None).
Proof.
  intros Ho Hcl Hpc Hpo Hpcl. unfold net_SplitHostPort.
  set (s := ("[" +:+ h +:+ "]:" +:+ p)%string).
  assert (Hs1 : s = (("[" +:+ h +:+ "]") +:+ String ":" p)%string).
  { unfold s. rewrite !append_assoc. reflexivity. }
  assert (Hs2 : s = (("[" +:+ h) +:+ String "]" (":" +:+ p))%string).
  { unfold s. rewrite !append_assoc. reflexivity. }
  assert (Hi : LastIndexByteString s ":" = len h + 2).
  { rewrite Hs1, (LastIndexByteString_append _ p ":" Hpc). len_lia. }
  assert (He : IndexByteString s "]" = len h + 1).
  { rewrite Hs2, IndexByteString_append_absent.
    - len_lia.
    - rewrite append_cons, append_nil. apply absent_cons. split; [discriminate | exact Hcl]. }
  assert (Hlen : len s = len h + 3 + len p).
  { unfold s. len_lia. }
  pose proof (len_nonneg h) as Hh. pose proof (len_nonneg p) as Hp.
  rewrite Hi, He, Hlen.
  replace (len h + 2 <? 0) with false by (symmetry; apply Z.ltb_ge; lia).
  change (at_index s 0) with "["%char. cbn [Ascii.eqb Bool.eqb]. cbv iota.
  replace (len h + 1 <? 0) with false by (symmetry; apply Z.ltb_ge; lia).
  replace (len h + 1 + 1 =? len h + 3 + len p) with false by (symmetry; apply Z.eqb_neq; lia).
  replace (len h + 1 + 1 =? len h + 2) with true by (symmetry; apply Z.eqb_eq; lia).
  assert (Hhost : slice s 1 (len h + 1) = h).
  { unfold s. rewrite Z.add_comm. apply (slice_between "[" h ("]:" +:+ p)). }
  assert (Htail1 : slice s 1 (len h + 3 + len p) = (h +:+ "]:" +:+ p)%string).
  { rewrite <- Hlen. apply (slice_drop "[" (h +:+ "]:" +:+ p)). }
  assert (Htail2 : slice s (len h + 1 + 1) (len h + 3 + len p) = String ":" p).
  { rewrite <- Hlen, Hs1.
    replace (len h + 1 + 1) with (len ("[" +:+ h +:+ "]")).
    - apply slice_drop.
    - len_lia. }
  assert (Hport : slice s (len h + 2 + 1) (len h + 3 + len p) = p).
  { rewrite <- Hlen, Hs1.
    replace (len h + 2 + 1) with (len ("[" +:+ h +:+ "]") + 1).
    - apply slice_suffix.
    - len_lia. }
  rewrite Hhost, Htail1, Htail2, Hport.
  assert (Hao : absent "[" (h +:+ "]:" +:+ p)).
  { apply absent_append. split; [exact Ho|]. rewrite !append_cons, append_nil.
    apply absent_cons. split; [discriminate|]. apply absent_cons. split; [discriminate | exact Hpo]. }
  assert (Hacl : absent "]" (String ":" p)).
  { apply absent_cons. split; [discriminate | exact Hpcl]. }
  rewrite Hao, Hacl. reflexivity.
Qed.

End GoStd.

(** ** Package [bedrock]: the connection processor *)

Module Bedrock.
Import Go GoStd.

(** An IP address and a port; [net.Addr] is an interface, so it may be nil. *)
Record AddrPort : Type := mkAddrPort { IP : Z; Port : Z }.
Definition net_Addr : Type := option AddrPort.

(** [proxyproto.Header], the part the processor reads. *)
Record Header : Type := mkHeader
  { SourceAddr : net_Addr; DestinationAddr : net_Addr }.

(** [protocol.Login], [login.IdentityData] and [login.ClientData], the part
    the processor reads. *)
Record Login : Type := mkLogin { ConnectionRequest : list byte }.
Record IdentityData : Type := mkIdentityData { DisplayName : string }.
Record ClientData : Type := mkClientData { ServerAddress : string }.

(** Modelled from the spec: [ListenerConfig] (section 3), the two fields the
    PROXY step is said to depend on; the listener's code is not among the
    sources. A CIDR is an IPv4 prefix. *)
Record CIDR : Type := mkCIDR { base : Z; bits : Z }.

Record ListenerConfig : Type := mkListenerConfig
  { receiveProxyProtocol : bool;
    trustedProxyCIDRs : list CIDR }.

Definition cidr_contains (c : CIDR) (ip : Z) : bool :=
  Z.shiftr ip (32 - bits c) =? Z.shiftr (base c) (32 - bits c).

Definition trusted (l : ListenerConfig) (peer : AddrPort) : bool :=
  existsb (fun c => cidr_contains c (IP peer)) (trustedProxyCIDRs l).

Section Processor.

(** The transport under a connection: what the peer has sent and the
    processor has not read yet. *)
Variable Transport : Type.

(** Modelled from the spec: the type [Conn] of [bedrock/conn.go], which is
    not among the sources. It wraps the RakNet session; its [proxyProtocol]
    flag says whether a PROXY header is to be read from it.
    [ProcessedConn] embeds a pointer to it, which is how [pc.proxyProtocol]
    and [pc.ReadPacket] resolve. *)
Record Conn : Type := mkConn
  { RemoteAddr : net_Addr;
    proxyProtocol : bool;
    transport : Transport }.

(** Modelled from the spec: how a listener hands an accepted connection to
    the processor; the code that sets [proxyProtocol] is not among the
    sources. Section 4.2, step 1, and section 8, item 6, have the header read
    when the listener receives the PROXY protocol and the peer is in
    [trustedProxyCIDRs], so the flag is set for such a peer only. *)
Definition accept (l : ListenerConfig) (peer : AddrPort) (t : Transport) : Conn :=
  {| RemoteAddr := Some peer;
     proxyProtocol := receiveProxyProtocol l && trusted l peer;
     transport := t |}.

(** Modelled from the spec: the type [ProcessedConn] of [bedrock/conn.go]
    (section 3), the fields [ProcessConn] sets. [conn] is the embedded
    [*Conn]: the connection as the reads have left it. *)
Record ProcessedConn : Type := mkProcessedConn
  { conn : Conn;
    readBytes : list byte;
    remoteAddr : net_Addr;
    serverAddr : string;
    username : string }.

(** The callees outside the file. Each reader returns the transport as it
    leaves it, also when it fails.
    - [proxyproto.Read(bufio.NewReader(c))] of go-proxyproto;
    - [ReadPacket] of the RakNet connection;
    - [protocol.NewDecoder(bytes.NewReader(b)).Decode()],
      [protocol.UnmarshalPacket(pk, &loginPk)] and [login.Parse] of the
      absent [bedrock/protocol] packages. *)
Variable proxyproto_Read : Transport -> Result Header * Transport.
Variable ReadPacket : Transport -> Result (list byte) * Transport.
Variable Decoder_Decode : list byte -> Result (list (list byte)).
Variable protocol_UnmarshalPacket : list byte -> Result Login.
Variable login_Parse : list byte -> Result (IdentityData * ClientData).

Definition with_transport (c : Conn) (t : Transport) : Conn :=
  {| RemoteAddr := RemoteAddr c; proxyProtocol := proxyProtocol c; transport := t |}.

Definition ErrNoValidPackets : error := errors_New "no valid packets received".

(** Lines 46-81: from [pc.ReadPacket()] to the return. [c] is the connection
    after the PROXY step and [addr] the value of [pc.remoteAddr]. *)
Definition process_login (c : Conn) (addr : net_Addr)
  : (option ProcessedConn * option error) * Conn :=
  let '(rd, t) := ReadPacket (transport c) in
  let c := with_transport c t in
  match rd with
  | inl err => ((None, Some err), c)
  | inr b =>
      match Decoder_Decode b with
      | inl err => ((None, Some err), c)
      | inr pks =>
          match pks with
          | [] => ((None, Some ErrNoValidPackets), c)
          | pk0 :: _ =>
              match protocol_UnmarshalPacket pk0 with
              | inl err => ((None, Some err), c)
              | inr loginPk =>
                  match login_Parse (ConnectionRequest loginPk) with
                  | inl err => ((None, Some err), c)
                  | inr (iData, cData) =>
                      let pc := {| conn := c; readBytes := b; remoteAddr := addr;
                                   serverAddr := ServerAddress cData;
                                   username := DisplayName iData |} in
                      if strings_Contains (serverAddr pc) ":" then
                        let '(host, _, err) := net_SplitHostPort (serverAddr pc) in
                        match err with
                        | Some e => ((None, Some e), c)
                        | None =>
                            ((Some {| conn := c; readBytes := b; remoteAddr := addr;
                                      serverAddr := host;
                                      username := DisplayName iData |}, None), c)
                        end
                      else ((Some pc, None), c)
                  end
              end
          end
      end
  end.

(** [ConnProcessor.ProcessConn]. The result is Go's pair [(net.Conn, error)]
    together with the connection as the call leaves it. *)
Definition ProcessConn (c : Conn) : (option ProcessedConn * option error) * Conn :=
  if proxyProtocol c then
    let '(hd, t) := proxyproto_Read (transport c) in
    let c := with_transport c t in
    match hd with
    | inl err => ((None, Some err), c)
    | inr header => process_login c (SourceAddr header)
    end
  else process_login c (RemoteAddr c).

(** *** What the claims speak of *)

(** The transport as the PROXY step leaves it: where the read of the first
    packet starts. *)
Definition after_header (c : Conn) : Transport :=
  if proxyProtocol c then snd (proxyproto_Read (transport c)) else transport c.

(** The claims of the login a first packet holds, when it holds one. *)
Definition login_claims (b : list byte) : option (IdentityData * ClientData) :=
  match Decoder_Decode b with
  | inr (pk0 :: _) =>
      match protocol_UnmarshalPacket pk0 with
      | inr loginPk =>
          match login_Parse (ConnectionRequest loginPk) with
          | inr claims => Some claims
          | inl _ => None
          end
      | inl _ => None
      end
  | _ => None
  end.

(** The four ways the first packet fails to give a login. *)
Definition malformed (b : list byte) : Prop :=
  (exists e, Decoder_Decode b = inl e)
  \/ Decoder_Decode b = inr []
  \/ (exists pk0 pks e,
        Decoder_Decode b = inr (pk0 :: pks) /\ protocol_UnmarshalPacket pk0 = inl e)
  \/ (exists pk0 pks loginPk e,
        Decoder_Decode b = inr (pk0 :: pks)
        /\ protocol_UnmarshalPacket pk0 = inr loginPk
        /\ login_Parse (ConnectionRequest loginPk) = inl e).

(** The address with its [:port] suffix stripped: the text before the last
    colon. *)
Definition strip_port (addr : string) : string :=
  slice addr 0 (LastIndexByteString addr ":").

(** *** The claim as the spec words it, where the code differs *)

(** C3 as the spec words it: the requested host is the login's
    [ServerAddress] with the [:port] suffix stripped when it has a colon, the
    address itself when it has none, and the user name is the [DisplayName]. *)
Definition requestedHost_strips_port (c : Conn) : Prop :=
  forall pc c', ProcessConn c = ((Some pc, None), c') ->
    exists iData cData,
      login_claims (readBytes pc) = Some (iData, cData)
      /\ username pc = DisplayName iData
      /\ (strings_Contains (ServerAddress cData) ":" = true ->
            serverAddr pc = strip_port (ServerAddress cData))
      /\ (strings_Contains (ServerAddress cData) ":" = false ->
            serverAddr pc = ServerAddress cData).

(** *** The processor's paths *)

Lemma malformed_no_claims (b : list byte) : malformed b -> login_claims b = None.
Proof.
  unfold malformed, login_claims.
  intros [[e H] | [H | [(pk0 & pks & e & H & Hu) | (pk0 & pks & lp & e & H & Hu & Hp)]]];
    rewrite H; try reflexivity.
  - rewrite Hu. reflexivity.
  - rewrite Hu, Hp. reflexivity.
Qed.

(** Every path of [process_login] returns a connection and no error, or an
    error and no connection. *)
Lemma process_login_shape (c : Conn) (addr : net_Addr) :
  (exists pc, fst (process_login c addr) = (Some pc, None))
  \/ (exists e, fst (process_login c addr) = (None, Some e)).
Proof.
  unfold process_login.
  destruct (ReadPacket (transport c)) as [[e|b] t]; [right; eauto|].
  destruct (Decoder_Decode b) as [e|[|pk0 pks]]; [right; eauto | right; eauto |].
  destruct (protocol_UnmarshalPacket pk0) as [e|lp]; [right; eauto|].
  destruct (login_Parse (ConnectionRequest lp)) as [e|[iData cData]]; [right; eauto|].
  cbn [serverAddr].
  destruct (strings_Contains (ServerAddress cData) ":"); [|left; eauto].
  destruct (net_SplitHostPort (ServerAddress cData)) as [[h p] [e|]];
    [right; eauto | left; eauto].
Qed.

(** A packet that holds no login makes [process_login] fail. *)
Lemma process_login_no_claims (c : Conn) (addr : net_Addr) (b : list byte) (t : Transport) :
  ReadPacket (transport c) = (inr b, t) ->
  login_claims b = None ->
  exists e, process_login c addr = ((None, Some e), with_transport c t).
Proof.
  unfold process_login, login_claims. intros -> H.
  destruct (Decoder_Decode b) as [e|[|pk0 pks]]; [eauto | eauto |].
  destruct (protocol_UnmarshalPacket pk0) as [e|lp]; [eauto|].
  destruct (login_Parse (ConnectionRequest lp)) as [e|[iData cData]]; [eauto|].
  discriminate H.
Qed.

(** What a successful [process_login] has done. *)
Lemma process_login_Some (c : Conn) (addr : net_Addr) (pc : ProcessedConn) (c' : Conn) :
  process_login c addr = ((Some pc, None), c') ->
  exists b t iData cData,
    ReadPacket (transport c) = (inr b, t)
    /\ c' = with_transport c t
    /\ login_claims b = Some (iData, cData)
    /\ conn pc = c' /\ readBytes pc = b /\ remoteAddr pc = addr
    /\ username pc = DisplayName iData
    /\ (strings_Contains (ServerAddress cData) ":" = false
          /\ serverAddr pc = ServerAddress cData
        \/ strings_Contains (ServerAddress cData) ":" = true
          /\ exists port,
               net_SplitHostPort (ServerAddress cData) = (serverAddr pc, port, None)).
Proof.
  unfold process_login.
  destruct (ReadPacket (transport c)) as [[e|b] t]; [discriminate|].
  destruct (Decoder_Decode b) as [e|[|pk0 pks]] eqn:Ed; [discriminate | discriminate |].
  destruct (protocol_UnmarshalPacket pk0) as [e|lp] eqn:Eu; [discriminate|].
  destruct (login_Parse (ConnectionRequest lp)) as [e|[iData cData]] eqn:Ep;
    [discriminate|].
  assert (Hclaims : login_claims b = Some (iData, cData)).
  { unfold login_claims. rewrite Ed, Eu, Ep. reflexivity. }
  cbn [serverAddr].
  destruct (strings_Contains (ServerAddress cData) ":") eqn:Ec.
  - destruct (net_SplitHostPort (ServerAddress cData)) as [[h p] [e|]] eqn:Es;
      [discriminate|].
    intros H. injection H as <- <-.
    exists b, t, iData, cData.
    split; [reflexivity|]. split; [reflexivity|]. split; [exact Hclaims|].
    do 4 (split; [reflexivity|]).
    right. split; [exact Ec|]. exists p. exact Es.
  - intros H. injection H as <- <-.
    exists b, t, iData, cData.
    split; [reflexivity|]. split; [reflexivity|]. split; [exact Hclaims|].
    do 4 (split; [reflexivity|]).
    left. split; [exact Ec | reflexivity].
Qed.

(** [ProcessConn] is [process_login] at the transport the PROXY step leaves,
    unless that step fails. *)
Lemma ProcessConn_Some (c : Conn) (pc : ProcessedConn) (c' : Conn) :
  ProcessConn c = ((Some pc, None), c') ->
  exists addr,
    process_login (with_transport c (after_header c)) addr = ((Some pc, None), c')
    /\ (proxyProtocol c = false /\ addr = RemoteAddr c
        \/ proxyProtocol c = true
          /\ exists header t,
               proxyproto_Read (transport c) = (inr header, t)
               /\ after_header c = t /\ addr = SourceAddr header).
Proof.
  unfold ProcessConn, after_header.
  destruct c as [ra [|] tr]; cbn [proxyProtocol transport RemoteAddr].
  - destruct (proxyproto_Read tr) as [[e|header] t] eqn:Er; [discriminate|].
    intros H. exists (SourceAddr header). split; [exact H|].
    right. split; [reflexivity|]. exists header, t. repeat split.
  - intros H. exists ra. split; [exact H|]. left. split; reflexivity.
Qed.

Lemma ProcessConn_shape (c : Conn) :
  (exists pc, fst (ProcessConn c) = (Some pc, None))
  \/ (exists e, fst (ProcessConn c) = (None, Some e)).
Proof.
  unfold ProcessConn. destruct (proxyProtocol c).
  - destruct (proxyproto_Read (transport c)) as [[e|header] t]; [right; eauto|].
    apply process_login_shape.
  - apply process_login_shape.
Qed.

(** *** The claims *)

(** C1: on a listener that receives the PROXY protocol, the header is read
    and the remote address replaced by the header's source for a peer inside
    [trustedProxyCIDRs], and a failed header read is the error of
    [ProcessConn]; for a peer outside, no header is consumed: the first
    packet is read at the start of the stream, that read is the only one of
    the call, and the remote address stays the peer's. *)
Theorem ProcessConn_proxy_header (l : ListenerConfig) (peer : AddrPort) (t : Transport) :
  receiveProxyProtocol l = true ->
  (trusted l peer = true ->
     (forall pc c', ProcessConn (accept l peer t) = ((Some pc, None), c') ->
        exists header t1 t2,
          proxyproto_Read t = (inr header, t1)
          /\ remoteAddr pc = SourceAddr header
          /\ ReadPacket t1 = (inr (readBytes pc), t2))
     /\ (forall e t1, proxyproto_Read t = (inl e, t1) ->
           ProcessConn (accept l peer t)
           = ((None, Some e), with_transport (accept l peer t) t1)))
  /\ (trusted l peer = false ->
       (forall pc c', ProcessConn (accept l peer t) = ((Some pc, None), c') ->
          remoteAddr pc = Some peer
          /\ exists t2, ReadPacket t = (inr (readBytes pc), t2))
       /\ (forall r c', ProcessConn (accept l peer t) = (r, c') ->
             transport c' = snd (ReadPacket t))).
Proof.
  intros Hrecv. split; intros Htrust.
  - assert (Hflag : proxyProtocol (accept l peer t) = true).
    { cbn [accept proxyProtocol]. rewrite Hrecv, Htrust. reflexivity. }
    split.
    + intros pc c' H. apply ProcessConn_Some in H.
      destruct H as (addr & Hl & [[Hoff _] | (_ & header & t1 & Hr & Hah & ->)]).
      { congruence. }
      apply process_login_Some in Hl.
      destruct Hl as (b & t2 & _ & _ & Hrd & _ & _ & _ & Hb & Hra & _).
      cbn [transport with_transport] in Hrd. rewrite Hah in Hrd.
      exists header, t1, t2. cbn [accept transport] in Hr.
      split; [exact Hr|]. split; [exact Hra|]. rewrite Hb. exact Hrd.
    + intros e t1 Hr. unfold ProcessConn. rewrite Hflag.
      cbn [accept transport]. rewrite Hr. reflexivity.
  - assert (Hflag : proxyProtocol (accept l peer t) = false).
    { cbn [accept proxyProtocol]. rewrite Hrecv, Htrust. reflexivity. }
    split.
    + intros pc c' H. apply ProcessConn_Some in H.
      destruct H as (addr & Hl & [[_ ->] | (Hon & _)]).
      2: { congruence. }
      apply process_login_Some in Hl.
      destruct Hl as (b & t2 & _ & _ & Hrd & _ & _ & _ & Hb & Hra & _).
      unfold after_header in Hrd. rewrite Hflag in Hrd.
      cbn [accept transport with_transport] in Hrd.
      split; [exact Hra|].
      exists t2. rewrite Hb. exact Hrd.
    + intros r c'. unfold ProcessConn, process_login. rewrite Hflag.
      cbn [accept transport with_transport].
      destruct (ReadPacket t) as [[e|b] t2]; cbn [snd].
      { intros H. injection H as _ <-. reflexivity. }
      destruct (Decoder_Decode b) as [e|[|pk0 pks]];
        try (intros H; injection H as _ <-; reflexivity).
      destruct (protocol_UnmarshalPacket pk0) as [e|lp];
        try (intros H; injection H as _ <-; reflexivity).
      destruct (login_Parse (ConnectionRequest lp)) as [e|[iData cData]];
        try (intros H; injection H as _ <-; reflexivity).
      cbn [serverAddr].
      destruct (strings_Contains (ServerAddress cData) ":");
        [destruct (net_SplitHostPort (ServerAddress cData)) as [[h p] [e|]]|];
        intros H; injection H as _ <-; reflexivity.
Qed.

(** C3, amended: the user name of a processed connection is the
    [DisplayName] of the login; the requested host is the [ServerAddress]
    itself when it has no colon; when it has one and does not start with a
    bracket, the host is the address with its [:port] suffix stripped, and
    neither part holds a colon; when it starts with a bracket, the address
    is [[host]:port] and the host is the text between the brackets. *)
Theorem ProcessConn_requestedHost (c : Conn) (pc : ProcessedConn) (c' : Conn) :
  ProcessConn c = ((Some pc, None), c') ->
  exists iData cData,
    login_claims (readBytes pc) = Some (iData, cData)
    /\ username pc = DisplayName iData
    /\ (strings_Contains (ServerAddress cData) ":" = false ->
          serverAddr pc = ServerAddress cData)
    /\ (strings_Contains (ServerAddress cData) ":" = true ->
          at_index (ServerAddress cData) 0 <> "["%char ->
          serverAddr pc = strip_port (ServerAddress cData)
          /\ absent ":" (serverAddr pc)
          /\ exists port,
               ServerAddress cData = (serverAddr pc +:+ ":" +:+ port)%string
               /\ absent ":" port)
    /\ (strings_Contains (ServerAddress cData) ":" = true ->
          at_index (ServerAddress cData) 0 = "["%char ->
          absent "]" (serverAddr pc)
          /\ exists port,
               ServerAddress cData = ("[" +:+ serverAddr pc +:+ "]:" +:+ port)%string
               /\ absent ":" port).
Proof.
  intros H. apply ProcessConn_Some in H. destruct H as (addr & Hl & _).
  apply process_login_Some in Hl.
  destruct Hl as (b & t & iData & cData & _ & _ & Hclaims & _ & Hb & _ & Hu & Hhost).
  exists iData, cData. rewrite Hb.
  split; [exact Hclaims|]. split; [exact Hu|].
  destruct Hhost as [[Hno Hsa] | [Hyes [port Hsplit]]].
  - split; [intros _; exact Hsa|]. split; intros Hc; congruence.
  - split; [intros Hc; congruence|]. split; intros _ Hbr.
    + destruct (net_SplitHostPort_plain _ _ _ Hsplit Hbr) as (Heq & Hh & Hp & Hstrip).
      split; [exact Hstrip|]. split; [exact Hh|]. exists port. split; assumption.
    + destruct (net_SplitHostPort_bracket _ _ _ Hsplit Hbr) as (Heq & Hh & Hp).
      split; [exact Hh|]. exists port. split; assumption.
Qed.

(** C4: when the first packet cannot be decoded, decodes to no packet, or its
    first packet is no login (it does not unmarshal, or its connection
    request does not parse), [ProcessConn] returns an error and no
    connection. *)
Theorem ProcessConn_malformed (c : Conn) (b : list byte) (t : Transport) :
  ReadPacket (after_header c) = (inr b, t) ->
  malformed b ->
  exists e, fst (ProcessConn c) = (None, Some e).
Proof.
  intros Hrd Hbad. apply malformed_no_claims in Hbad.
  unfold ProcessConn, after_header in *. destruct (proxyProtocol c).
  - destruct (proxyproto_Read (transport c)) as [[e|header] t1]; [eauto|].
    cbn [snd] in Hrd.
    destruct (process_login_no_claims (with_transport c t1) (SourceAddr header) b t Hrd Hbad)
      as [e He].
    exists e. rewrite He. reflexivity.
  - destruct (process_login_no_claims c (RemoteAddr c) b t Hrd Hbad) as [e He].
    exists e. rewrite He. reflexivity.
Qed.

(** C5: the [readBytes] of a processed connection are the bytes of the one
    packet read where the PROXY step left the transport, and the transport
    is left where that read ended: nothing else was read. *)
Theorem ProcessConn_readBytes (c : Conn) (pc : ProcessedConn) (c' : Conn) :
  ProcessConn c = ((Some pc, None), c') ->
  exists t,
    ReadPacket (after_header c) = (inr (readBytes pc), t)
    /\ transport c' = t
    /\ conn pc = c'.
Proof.
  intros H. apply ProcessConn_Some in H. destruct H as (addr & Hl & _).
  apply process_login_Some in Hl.
  destruct Hl as (b & t & _ & _ & Hrd & Hc' & _ & Hconn & Hb & _).
  cbn [transport with_transport] in Hrd.
  exists t. rewrite Hb. split; [exact Hrd|]. split; [|exact Hconn].
  rewrite Hc'. reflexivity.
Qed.

(** C9: when [ProcessConn] returns an error, the connection it returns is
    nil. *)
Theorem ProcessConn_error_nil (c : Conn) :
  snd (fst (ProcessConn c)) <> None -> fst (fst (ProcessConn c)) = None.
Proof.
  destruct (ProcessConn_shape c) as [[pc H] | [e H]]; rewrite H; cbn.
  - intros Hn. contradiction.
  - intros _. reflexivity.
Qed.

(** *** More of the processor's behaviour *)

(** The PROXY step has failed: the flag is set and the header did not read. *)
Definition header_failed (c : Conn) : bool :=
  proxyProtocol c
  && match fst (proxyproto_Read (transport c)) with
     | inl _ => true
     | inr _ => false
     end.

(** The value of [pc.remoteAddr] after the PROXY step. *)
Definition remote_after_header (c : Conn) : net_Addr :=
  if proxyProtocol c then
    match fst (proxyproto_Read (transport c)) with
    | inr header => SourceAddr header
    | inl _ => RemoteAddr c
    end
  else RemoteAddr c.

(** Lines 74-79: the requested host of a server address, or the error of
    [net.SplitHostPort]. *)
Definition resolve_host (addr : string) : Result string :=
  if strings_Contains addr ":" then
    match net_SplitHostPort addr with
    | (host, _, None) => inr host
    | (_, _, Some e) => inl e
    end
  else inr addr.

(** The connection [ProcessConn] returns for a login. *)
Definition processed (c : Conn) (t : Transport) (b : list byte)
  (iData : IdentityData) (host : string) : ProcessedConn :=
  {| conn := with_transport c t; readBytes := b;
     remoteAddr := remote_after_header c;
     serverAddr := host; username := DisplayName iData |}.

Lemma login_claims_Some (b : list byte) (iData : IdentityData) (cData : ClientData) :
  login_claims b = Some (iData, cData) ->
  exists pk0 pks loginPk,
    Decoder_Decode b = inr (pk0 :: pks)
    /\ protocol_UnmarshalPacket pk0 = inr loginPk
    /\ login_Parse (ConnectionRequest loginPk) = inr (iData, cData).
Proof.
  unfold login_claims.
  destruct (Decoder_Decode b) as [e|[|pk0 pks]]; try discriminate.
  destruct (protocol_UnmarshalPacket pk0) as [e|lp] eqn:Eu; try discriminate.
  destruct (login_Parse (ConnectionRequest lp)) as [e|claims] eqn:Ep; try discriminate.
  intros H. injection H as ->. exists pk0, pks, lp.
  split; [reflexivity|]. split; [exact Eu | exact Ep].
Qed.

(** [process_login] on a packet that holds a login. *)
Lemma process_login_claims (c : Conn) (addr : net_Addr) (b : list byte) (t : Transport)
  (iData : IdentityData) (cData : ClientData) :
  ReadPacket (transport c) = (inr b, t) ->
  login_claims b = Some (iData, cData) ->
  process_login c addr
  = match resolve_host (ServerAddress cData) with
    | inl e => ((None, Some e), with_transport c t)
    | inr host =>
        ((Some {| conn := with_transport c t; readBytes := b; remoteAddr := addr;
                  serverAddr := host; username := DisplayName iData |}, None),
         with_transport c t)
    end.
Proof.
  intros Hrd Hclaims.
  destruct (login_claims_Some _ _ _ Hclaims) as (pk0 & pks & lp & Hd & Hu & Hp).
  unfold process_login, resolve_host. rewrite Hrd, Hd, Hu, Hp. cbn [serverAddr].
  destruct (strings_Contains (ServerAddress cData) ":"); [|reflexivity].
  destruct (net_SplitHostPort (ServerAddress cData)) as [[h p] [e|]]; reflexivity.
Qed.

(** [ProcessConn] on a connection whose PROXY step passes and whose first
    packet holds a login. *)
Lemma ProcessConn_claims (c : Conn) (b : list byte) (t : Transport)
  (iData : IdentityData) (cData : ClientData) :
  header_failed c = false ->
  ReadPacket (after_header c) = (inr b, t) ->
  login_claims b = Some (iData, cData) ->
  ProcessConn c
  = match resolve_host (ServerAddress cData) with
    | inl e => ((None, Some e), with_transport c t)
    | inr host => ((Some (processed c t b iData host), None), with_transport c t)
    end.
Proof.
  unfold header_failed, after_header, ProcessConn, processed, remote_after_header.
  intros Hok Hrd Hclaims. destruct (proxyProtocol c); cbn [andb] in Hok.
  - destruct (proxyproto_Read (transport c)) as [[e|header] t1];
      cbn [fst snd] in *; [discriminate Hok|].
    rewrite (process_login_claims (with_transport c t1) (SourceAddr header) b t iData cData
               Hrd Hclaims).
    reflexivity.
  - rewrite (process_login_claims c (RemoteAddr c) b t iData cData Hrd Hclaims).
    destruct c; reflexivity.
Qed.

(** X1: [ProcessConn] returns a connection exactly when the PROXY step has
    not failed, the read of the first packet succeeds, the packet holds a
    login, and the server address has no colon or splits into host and
    port. *)
Theorem ProcessConn_succeeds_iff (c : Conn) :
  (exists pc, fst (ProcessConn c) = (Some pc, None))
  <-> header_failed c = false
      /\ exists b t iData cData host,
           ReadPacket (after_header c) = (inr b, t)
           /\ login_claims b = Some (iData, cData)
           /\ resolve_host (ServerAddress cData) = inr host.
Proof.
  split.
  - intros [pc Hpc].
    destruct (ProcessConn c) as [r c'] eqn:Hrun. cbn [fst] in Hpc. subst r.
    pose proof (ProcessConn_Some c pc c' Hrun) as (addr & Hl & Hstep).
    apply process_login_Some in Hl.
    destruct Hl as (b & t & iData & cData & Hrd & _ & Hclaims & _ & _ & _ & _ & Hhost).
    cbn [transport with_transport] in Hrd.
    split.
    + unfold header_failed.
      destruct Hstep as [[-> _] | (-> & header & t1 & Hr & _)]; [reflexivity|].
      rewrite Hr. reflexivity.
    + exists b, t, iData, cData. unfold resolve_host.
      destruct Hhost as [[-> Hsa] | [-> [port Hsplit]]].
      * exists (ServerAddress cData). repeat split; assumption.
      * exists (serverAddr pc). rewrite Hsplit. repeat split; assumption.
  - intros (Hok & b & t & iData & cData & host & Hrd & Hclaims & Hhost).
    rewrite (ProcessConn_claims c b t iData cData Hok Hrd Hclaims), Hhost.
    eexists. reflexivity.
Qed.

(** X2: a server address [host:port] whose host and port hold no colon and
    no bracket is accepted and gives the host; the port is not looked at, so
    it may be empty or no number. *)
Theorem ProcessConn_host_port (c : Conn) (b : list byte) (t : Transport)
  (iData : IdentityData) (cData : ClientData) (host port : string) :
  header_failed c = false ->
  ReadPacket (after_header c) = (inr b, t) ->
  login_claims b = Some (iData, cData) ->
  ServerAddress cData = (host +:+ String ":" port)%string ->
  absent ":" host -> absent "[" host -> absent "]" host ->
  absent ":" port -> absent "[" port -> absent "]" port ->
  ProcessConn c = ((Some (processed c t b iData host), None), with_transport c t).
Proof.
  intros Hok Hrd Hclaims Hsa Hc Ho Hcl Hpc Hpo Hpcl.
  rewrite (ProcessConn_claims c b t iData cData Hok Hrd Hclaims).
  unfold resolve_host. rewrite Hsa.
  rewrite (net_SplitHostPort_host_port host port Hc Ho Hcl Hpc Hpo Hpcl).
  replace (strings_Contains (host +:+ String ":" port) ":") with true; [reflexivity|].
  symmetry. apply strings_Contains_byte.
  rewrite (LastIndexByteString_append host port ":" Hpc). apply len_nonneg.
Qed.

(** X3: a server address [[host]:port] is accepted and gives the host
    without its brackets; the host may hold colons, as an IPv6 literal
    does. *)
Theorem ProcessConn_bracketed_host (c : Conn) (b : list byte) (t : Transport)
  (iData : IdentityData) (cData : ClientData) (host port : string) :
  header_failed c = false ->
  ReadPacket (after_header c) = (inr b, t) ->
  login_claims b = Some (iData, cData) ->
  ServerAddress cData = ("[" +:+ host +:+ "]:" +:+ port)%string ->
  absent "[" host -> absent "]" host ->
  absent ":" port -> absent "[" port -> absent "]" port ->
  ProcessConn c = ((Some (processed c t b iData host), None), with_transport c t).
Proof.
  intros Hok Hrd Hclaims Hsa Ho Hcl Hpc Hpo Hpcl.
  rewrite (ProcessConn_claims c b t iData cData Hok Hrd Hclaims).
  unfold resolve_host. rewrite Hsa.
  rewrite (net_SplitHostPort_bracketed host port Ho Hcl Hpc Hpo Hpcl).
  replace (strings_Contains ("[" +:+ host +:+ "]:" +:+ port) ":") with true; [reflexivity|].
  symmetry. apply strings_Contains_byte.
  replace ("[" +:+ host +:+ "]:" +:+ port)%string
    with (("[" +:+ host +:+ "]") +:+ String ":" port)%string
    by (rewrite !append_assoc; reflexivity).
  rewrite (LastIndexByteString_append _ port ":" Hpc). apply len_nonneg.
Qed.

(** X4: a server address with two colons or more that does not start with a
    bracket, such as a bare IPv6 address, makes [ProcessConn] fail with the
    address error "too many colons in address". *)
Theorem ProcessConn_rejects_bare_colons (c : Conn) (b : list byte) (t : Transport)
  (iData : IdentityData) (cData : ClientData) :
  header_failed c = false ->
  ReadPacket (after_header c) = (inr b, t) ->
  login_claims b = Some (iData, cData) ->
  at_index (ServerAddress cData) 0 <> "["%char ->
  0 <= IndexByteString (ServerAddress cData) ":"
    < LastIndexByteString (ServerAddress cData) ":" ->
  ProcessConn c
  = ((None, Some (AddrError tooManyColons (ServerAddress cData))), with_transport c t).
Proof.
  intros Hok Hrd Hclaims Hb Hcolons.
  rewrite (ProcessConn_claims c b t iData cData Hok Hrd Hclaims).
  unfold resolve_host.
  rewrite (net_SplitHostPort_too_many_colons _ Hb Hcolons).
  replace (strings_Contains (ServerAddress cData) ":") with true; [reflexivity|].
  symmetry. apply strings_Contains_byte. lia.
Qed.

(** X5: whatever happens, [ProcessConn] changes nothing of the connection
    but its transport, and reads one packet at most: the transport is left
    where the PROXY step left it when that step fails, and where the read of
    one packet from there ends in every other case. *)
Theorem ProcessConn_reads_one_packet (c : Conn) :
  snd (ProcessConn c)
  = with_transport c
      (if header_failed c then after_header c
       else snd (ReadPacket (after_header c))).
Proof.
  assert (Hlogin : forall c0 addr,
             snd (process_login c0 addr)
             = with_transport c0 (snd (ReadPacket (transport c0)))).
  { intros c0 addr. unfold process_login.
    destruct (ReadPacket (transport c0)) as [[e|b] t]; [reflexivity|].
    destruct (Decoder_Decode b) as [e|[|pk0 pks]]; try reflexivity.
    destruct (protocol_UnmarshalPacket pk0) as [e|lp]; try reflexivity.
    destruct (login_Parse (ConnectionRequest lp)) as [e|[iData cData]]; try reflexivity.
    cbn [serverAddr].
    destruct (strings_Contains (ServerAddress cData) ":"); [|reflexivity].
    destruct (net_SplitHostPort (ServerAddress cData)) as [[h p] [e|]]; reflexivity. }
  unfold ProcessConn, header_failed, after_header.
  destruct (proxyProtocol c); cbn [andb].
  - destruct (proxyproto_Read (transport c)) as [[e|header] t1]; cbn [fst snd];
      [reflexivity|].
    rewrite Hlogin. reflexivity.
  - rewrite Hlogin. reflexivity.
Qed.

End Processor.

Arguments mkConn {Transport}.
Arguments RemoteAddr {Transport}.
Arguments proxyProtocol {Transport}.
Arguments transport {Transport}.
Arguments conn {Transport}.
Arguments readBytes {Transport}.
Arguments remoteAddr {Transport}.
Arguments serverAddr {Transport}.
Arguments username {Transport}.
Arguments with_transport {Transport}.
Arguments process_login {Transport}.
Arguments ProcessConn {Transport}.
Arguments accept {Transport}.
Arguments after_header {Transport}.
Arguments requestedHost_strips_port {Transport}.

(** *** A small codec to run the processor on

    The transport is the queue of datagrams received and not read yet. A
    PROXY datagram is the letter P and the four bytes of the source address;
    a login datagram is the text of the server address, and the player is
    Steve. *)
Module Sample.

Definition Datagrams : Type := list (list byte).

Definition EOF : error := errors_New "EOF".

Definition ReadPacket (t : Datagrams) : Result (list byte) * Datagrams :=
  match t with
  | [] => (inl EOF, [])
  | d :: t' => (inr d, t')
  end.

Definition ipv4 (a b c d : byte) : Z :=
  Z.lor (Z.shiftl (Z_of_byte a) 24)
    (Z.lor (Z.shiftl (Z_of_byte b) 16) (Z.lor (Z.shiftl (Z_of_byte c) 8) (Z_of_byte d))).

Definition proxyproto_Read (t : Datagrams) : Result Header * Datagrams :=
  match t with
  | (x50 :: a :: b :: c :: d :: _) :: t' =>
      (inr {| SourceAddr := Some {| IP := ipv4 a b c d; Port := 0 |};
              DestinationAddr := None |}, t')
  | _ :: t' => (inl (errors_New "proxyproto: invalid signature"), t')
  | [] => (inl EOF, [])
  end.

Definition Decoder_Decode (b : list byte) : Result (list (list byte)) :=
  match b with
  | [] => inr []
  | _ => inr [b]
  end.

Definition protocol_UnmarshalPacket (pk : list byte) : Result Login :=
  inr {| ConnectionRequest := pk |}.

Definition login_Parse (request : list byte) : Result (IdentityData * ClientData) :=
  inr ({| DisplayName := "Steve" |}, {| ServerAddress := string_of_bytes request |}).

Definition ProcessConn : Conn Datagrams -> _ :=
  Bedrock.ProcessConn proxyproto_Read ReadPacket Decoder_Decode
    protocol_UnmarshalPacket login_Parse.

(** A listener that receives the PROXY protocol and trusts 10.0.0.0/8, a
    peer inside that range (the proxy in front, 10.0.0.9), a stranger
    outside it (198.51.100.9), and datagrams: a PROXY header for 192.0.2.7,
    then a login. *)
Definition listener : ListenerConfig :=
  {| receiveProxyProtocol := true;
     trustedProxyCIDRs := [ {| base := ipv4 x0a x00 x00 x00; bits := 8 |} ] |}.

Definition peer : AddrPort := {| IP := ipv4 x0a x00 x00 x09; Port := 50000 |}.

Definition stranger : AddrPort := {| IP := ipv4 xc6 x33 x64 x09; Port := 50000 |}.

Definition login_datagram (addr : string) : list byte := bytes_of_string addr.

Definition proxied : Datagrams :=
  [ [x50; xc0; x00; x02; x07]; login_datagram "play.example.com:19132" ].

Definition direct (addr : string) : Conn Datagrams :=
  {| RemoteAddr := Some peer; proxyProtocol := false;
     transport := [login_datagram addr] |}.

Example peer_trusted : trusted listener peer = true.
Proof. reflexivity. Qed.

Example stranger_untrusted : trusted listener stranger = false.
Proof. reflexivity. Qed.

Example ProcessConn_proxied :
  fst (ProcessConn (accept listener peer proxied))
  = (Some {| conn := {| RemoteAddr := Some peer; proxyProtocol := true; transport := [] |};
             readBytes := login_datagram "play.example.com:19132";
             remoteAddr := Some {| IP := ipv4 xc0 x00 x02 x07; Port := 0 |};
             serverAddr := "play.example.com";
             username := "Steve" |}, None).
Proof. vm_compute. reflexivity. Qed.

Example ProcessConn_bracketed :
  fst (ProcessConn (direct "[::1]:19132"))
  = (Some {| conn := {| RemoteAddr := Some peer; proxyProtocol := false; transport := [] |};
             readBytes := login_datagram "[::1]:19132";
             remoteAddr := Some peer;
             serverAddr := "::1";
             username := "Steve" |}, None).
Proof. vm_compute. reflexivity. Qed.

Example ProcessConn_too_many_colons :
  fst (ProcessConn (direct "::1:19132"))
  = (None, Some (AddrError tooManyColons "::1:19132")).
Proof. vm_compute. reflexivity. Qed.

End Sample.

(** C3, refuted as the spec words it: for the address [[::1]:19132] the
    requested host is [::1], not the address without its [:19132]. *)
Lemma requestedHost_drops_brackets :
  ~ requestedHost_strips_port Sample.proxyproto_Read Sample.ReadPacket
      Sample.Decoder_Decode Sample.protocol_UnmarshalPacket Sample.login_Parse
      (Sample.direct "[::1]:19132").
Proof.
  intros H.
  pose proof (surjective_pairing (Sample.ProcessConn (Sample.direct "[::1]:19132")))
    as Hrun.
  rewrite Sample.ProcessConn_bracketed in Hrun.
  destruct (H _ _ Hrun) as (iData & cData & Hclaims & _ & Hstrip & _).
  vm_compute in Hclaims. injection Hclaims as _ <-.
  specialize (Hstrip eq_refl). vm_compute in Hstrip. discriminate Hstrip.
Qed.

(** The claims at the sample connections. *)

Definition processed_proxied : ProcessedConn Sample.Datagrams :=
  {| conn := {| RemoteAddr := Some Sample.peer; proxyProtocol := true; transport := [] |};
     readBytes := Sample.login_datagram "play.example.com:19132";
     remoteAddr := Some {| IP := Sample.ipv4 xc0 x00 x02 x07; Port := 0 |};
     serverAddr := "play.example.com";
     username := "Steve" |}.

Lemma ProcessConn_proxied_run :
  Sample.ProcessConn (accept Sample.listener Sample.peer Sample.proxied)
  = ((Some processed_proxied, None), conn processed_proxied).
Proof. vm_compute. reflexivity. Defined.

(** What a stranger gets who sends the same datagrams: the first one is
    read as the login. *)
Definition processed_stranger : ProcessedConn Sample.Datagrams :=
  {| conn := {| RemoteAddr := Some Sample.stranger; proxyProtocol := false;
                transport := [Sample.login_datagram "play.example.com:19132"] |};
     readBytes := [x50; xc0; x00; x02; x07];
     remoteAddr := Some Sample.stranger;
     serverAddr := string_of_bytes [x50; xc0; x00; x02; x07];
     username := "Steve" |}.

Lemma ProcessConn_stranger_run :
  Sample.ProcessConn (accept Sample.listener Sample.stranger Sample.proxied)
  = ((Some processed_stranger, None), conn processed_stranger).
Proof. vm_compute. reflexivity. Defined.

Lemma ProcessConn_proxy_header_proxied :
  (exists header t1 t2,
      Sample.proxyproto_Read Sample.proxied = (inr header, t1)
      /\ remoteAddr processed_proxied = SourceAddr header
      /\ Sample.ReadPacket t1 = (inr (readBytes processed_proxied), t2))
  /\ (remoteAddr processed_stranger = Some Sample.stranger
      /\ exists t2,
           Sample.ReadPacket Sample.proxied = (inr (readBytes processed_stranger), t2)).
Proof.
  split.
  - exact (proj1
             (proj1 (ProcessConn_proxy_header Sample.Datagrams Sample.proxyproto_Read
                       Sample.ReadPacket Sample.Decoder_Decode
                       Sample.protocol_UnmarshalPacket Sample.login_Parse
                       Sample.listener Sample.peer Sample.proxied eq_refl)
                eq_refl)
             processed_proxied (conn processed_proxied) ProcessConn_proxied_run).
  - exact (proj1
             (proj2 (ProcessConn_proxy_header Sample.Datagrams Sample.proxyproto_Read
                       Sample.ReadPacket Sample.Decoder_Decode
                       Sample.protocol_UnmarshalPacket Sample.login_Parse
                       Sample.listener Sample.stranger Sample.proxied eq_refl)
                eq_refl)
             processed_stranger (conn processed_stranger) ProcessConn_stranger_run).
Defined.

Lemma ProcessConn_requestedHost_proxied :
  exists iData cData,
    login_claims Sample.Decoder_Decode Sample.protocol_UnmarshalPacket Sample.login_Parse
      (readBytes processed_proxied) = Some (iData, cData)
    /\ username processed_proxied = DisplayName iData
    /\ (strings_Contains (ServerAddress cData) ":" = false ->
          serverAddr processed_proxied = ServerAddress cData)
    /\ (strings_Contains (ServerAddress cData) ":" = true ->
          at_index (ServerAddress cData) 0 <> "["%char ->
          serverAddr processed_proxied = strip_port (ServerAddress cData)
          /\ absent ":" (serverAddr processed_proxied)
          /\ exists port,
               ServerAddress cData
               = (serverAddr processed_proxied +:+ ":" +:+ port)%string
               /\ absent ":" port)
    /\ (strings_Contains (ServerAddress cData) ":" = true ->
          at_index (ServerAddress cData) 0 = "["%char ->
          absent "]" (serverAddr processed_proxied)
          /\ exists port,
               ServerAddress cData
               = ("[" +:+ serverAddr processed_proxied +:+ "]:" +:+ port)%string
               /\ absent ":" port).
Proof.
  exact (ProcessConn_requestedHost Sample.Datagrams Sample.proxyproto_Read Sample.ReadPacket
           Sample.Decoder_Decode Sample.protocol_UnmarshalPacket Sample.login_Parse
           (accept Sample.listener Sample.peer Sample.proxied)
           processed_proxied (conn processed_proxied) ProcessConn_proxied_run).
Defined.

(** A datagram of no bytes decodes to no packet. *)
Definition empty_login : Conn Sample.Datagrams :=
  {| RemoteAddr := Some Sample.peer; proxyProtocol := false; transport := [[]] |}.

Lemma ProcessConn_malformed_empty_login :
  exists e, fst (Sample.ProcessConn empty_login) = (None, Some e).
Proof.
  apply (ProcessConn_malformed Sample.Datagrams Sample.proxyproto_Read Sample.ReadPacket
           Sample.Decoder_Decode Sample.protocol_UnmarshalPacket Sample.login_Parse
           empty_login [] []).
  - reflexivity.
  - right. left. reflexivity.
Defined.

Lemma ProcessConn_readBytes_proxied :
  exists t,
    Sample.ReadPacket (after_header Sample.proxyproto_Read
                         (accept Sample.listener Sample.peer Sample.proxied))
    = (inr (readBytes processed_proxied), t)
    /\ transport (conn processed_proxied) = t
    /\ conn processed_proxied = conn processed_proxied.
Proof.
  exact (ProcessConn_readBytes Sample.Datagrams Sample.proxyproto_Read Sample.ReadPacket
           Sample.Decoder_Decode Sample.protocol_UnmarshalPacket Sample.login_Parse
           (accept Sample.listener Sample.peer Sample.proxied)
           processed_proxied (conn processed_proxied) ProcessConn_proxied_run).
Defined.

(** A connection whose peer has sent nothing: the read fails. *)
Definition silent : Conn Sample.Datagrams :=
  {| RemoteAddr := Some Sample.peer; proxyProtocol := true; transport := [] |}.

Lemma ProcessConn_error_nil_silent : fst (fst (Sample.ProcessConn silent)) = None.
Proof.
  apply (ProcessConn_error_nil Sample.Datagrams Sample.proxyproto_Read Sample.ReadPacket
           Sample.Decoder_Decode Sample.protocol_UnmarshalPacket Sample.login_Parse
           silent).
  vm_compute. discriminate.
Defined.

(** X6: of the packets decoded from the datagram only the first is looked
    at: a decoder that drops the others gives the same result. *)
Theorem ProcessConn_first_packet_only (Transport : Type)
  (proxyproto_Read : Transport -> Result Header * Transport)
  (ReadPacket : Transport -> Result (list byte) * Transport)
  (Decoder_Decode : list byte -> Result (list (list byte)))
  (protocol_UnmarshalPacket : list byte -> Result Login)
  (login_Parse : list byte -> Result (IdentityData * ClientData))
  (c : Conn Transport) :
  ProcessConn proxyproto_Read ReadPacket
    (fun b => match Decoder_Decode b with
              | inr (pk0 :: _) => inr [pk0]
              | r => r
              end)
    protocol_UnmarshalPacket login_Parse c
  = ProcessConn proxyproto_Read ReadPacket Decoder_Decode
      protocol_UnmarshalPacket login_Parse c.
Proof.
  assert (Hlogin : forall c0 addr,
             process_login ReadPacket
               (fun b => match Decoder_Decode b with
                         | inr (pk0 :: _) => inr [pk0]
                         | r => r
                         end)
               protocol_UnmarshalPacket login_Parse c0 addr
             = process_login ReadPacket Decoder_Decode protocol_UnmarshalPacket
                 login_Parse c0 addr).
  { intros c0 addr. unfold process_login.
    destruct (ReadPacket (transport c0)) as [[e|b] t]; [reflexivity|].
    destruct (Decoder_Decode b) as [e|[|pk0 pks]]; reflexivity. }
  unfold ProcessConn. destruct (proxyProtocol c).
  - destruct (proxyproto_Read (transport c)) as [[e|header] t1]; [reflexivity|].
    apply Hlogin.
  - apply Hlogin.
Qed.

(** The address forms at the sample connections. *)

Lemma ProcessConn_host_port_proxied :
  Sample.ProcessConn (accept Sample.listener Sample.peer Sample.proxied)
  = ((Some (processed Sample.Datagrams Sample.proxyproto_Read
              (accept Sample.listener Sample.peer Sample.proxied) []
              (Sample.login_datagram "play.example.com:19132")
              {| DisplayName := "Steve" |} "play.example.com"), None),
     with_transport (accept Sample.listener Sample.peer Sample.proxied) []).
Proof.
  apply (ProcessConn_host_port Sample.Datagrams Sample.proxyproto_Read Sample.ReadPacket
           Sample.Decoder_Decode Sample.protocol_UnmarshalPacket Sample.login_Parse
           (accept Sample.listener Sample.peer Sample.proxied)
           (Sample.login_datagram "play.example.com:19132") []
           {| DisplayName := "Steve" |}
           {| ServerAddress := "play.example.com:19132" |}
           "play.example.com" "19132"); vm_compute; reflexivity.
Defined.

Lemma ProcessConn_bracketed_host_loopback :
  Sample.ProcessConn (Sample.direct "[::1]:19132")
  = ((Some (processed Sample.Datagrams Sample.proxyproto_Read
              (Sample.direct "[::1]:19132") []
              (Sample.login_datagram "[::1]:19132")
              {| DisplayName := "Steve" |} "::1"), None),
     with_transport (Sample.direct "[::1]:19132") []).
Proof.
  apply (ProcessConn_bracketed_host Sample.Datagrams Sample.proxyproto_Read
           Sample.ReadPacket Sample.Decoder_Decode Sample.protocol_UnmarshalPacket
           Sample.login_Parse
           (Sample.direct "[::1]:19132") (Sample.login_datagram "[::1]:19132") []
           {| DisplayName := "Steve" |} {| ServerAddress := "[::1]:19132" |}
           "::1" "19132"); vm_compute; reflexivity.
Defined.

Lemma ProcessConn_rejects_bare_loopback :
  Sample.ProcessConn (Sample.direct "::1:19132")
  = ((None, Some (AddrError tooManyColons "::1:19132")),
     with_transport (Sample.direct "::1:19132") []).
Proof.
  apply (ProcessConn_rejects_bare_colons Sample.Datagrams Sample.proxyproto_Read
           Sample.ReadPacket Sample.Decoder_Decode Sample.protocol_UnmarshalPacket
           Sample.login_Parse
           (Sample.direct "::1:19132") (Sample.login_datagram "::1:19132") []
           {| DisplayName := "Steve" |} {| ServerAddress := "::1:19132" |}).
  - reflexivity.
  - reflexivity.
  - reflexivity.
  - vm_compute. intros H. discriminate H.
  - vm_compute. split; [intros H; discriminate H | reflexivity].
Defined.

End Bedrock.

(** ** Package [cmd]: the root command *)

Module Cmd.
Import Go.

Definition devEnvironment : string := "dev".
Definition prodEnvironment : string := "prod".
Definition configDefaultPath : string := "configs/".

Inductive Edition : Type := JavaEdition | BedrockEdition.

Definition Edition_eqb (a b : Edition) : bool :=
  match a, b with
  | JavaEdition, JavaEdition | BedrockEdition, BedrockEdition => true
  | _, _ => false
  end.

(** *** The file system

    An entry of the file system under the working directory, by the path the
    [os] functions get (every path of this file comes out of [filepath.Join],
    which returns it cleaned). *)
Inductive Node : Type :=
| File (content : list byte)
| Dir.

(** [os.IsNotExist(err)] and [errors.Is(err, os.ErrNotExist)]. *)
Definition os_IsNotExist (err : error) : bool :=
  match err with
  | PathError _ _ ENOENT => true
  | _ => false
  end.

(** [fs.DirEntry], what the function reads of it. *)
Record DirEntry : Type := mkDirEntry { Name : string; IsDir : bool }.

(** How a call of this file ends: it returns its [error], or the recursion
    goes deeper than the fuel of the model. *)
Inductive Outcome : Type :=
| Returned (err : option error)
| OutOfFuel.

Section FileSystem.

(** Why the operating system refuses a call although the path would allow it
    (permissions, a missing parent, a full disk). A refused [Stat] is never
    reported as "does not exist". *)
Variable stat_denied : string -> bool.
Variable mkdir_fault : gmap string Node -> string -> option Errno.
Variable write_fault : gmap string Node -> string -> option Errno.

Definition os_Stat (fs : gmap string Node) (name : string) : option error :=
  if stat_denied name then Some (PathError "stat" name EACCES)
  else match fs !! name with
       | Some _ => None
       | None => Some (PathError "stat" name ENOENT)
       end.

Definition os_Mkdir (fs : gmap string Node) (name : string)
  : gmap string Node * option error :=
  match mkdir_fault fs name with
  | Some e => (fs, Some (PathError "mkdir" name e))
  | None =>
      match fs !! name with
      | Some _ => (fs, Some (PathError "mkdir" name EEXIST))
      | None => (<[name := Dir]> fs, None)
      end
  end.

(** [os.WriteFile] creates the file or truncates the one that is there. *)
Definition os_WriteFile (fs : gmap string Node) (name : string) (data : list byte)
  : gmap string Node * option error :=
  match write_fault fs name with
  | Some e => (fs, Some (PathError "open" name e))
  | None =>
      match fs !! name with
      | Some Dir => (fs, Some (PathError "open" name EISDIR))
      | _ => (<[name := File data]> fs, None)
      end
  end.

(** The embedded bundle [files] and [filepath.Join]. *)
Variable files_ReadDir : string -> Result (list DirEntry).
Variable files_ReadFile : string -> Result (list byte).
Variable filepath_Join : string -> string -> string.

(** [fmt.Sprintf("%s/%s", embedPath, e.Name())]. *)
Definition Sprintf_path (embedPath name : string) : string :=
  (embedPath +:+ "/" +:+ name)%string.

(** The loop of [safeWriteFromEmbeddedFS] over the entries left to visit;
    [recurse] is the function itself, one level down. *)
Fixpoint range_entries
  (recurse : string -> string -> gmap string Node -> gmap string Node * Outcome)
  (embedPath sysPath : string) (entries : list DirEntry) (fs : gmap string Node)
  : gmap string Node * Outcome :=
  match entries with
  | [] => (fs, Returned None)
  | e :: entries' =>
      let ePath := Sprintf_path embedPath (Name e) in
      let sPath := filepath_Join sysPath (Name e) in
      let next := range_entries recurse embedPath sysPath entries' in
      match os_Stat fs sPath with
      | None => next fs
      | Some err =>
          if negb (os_IsNotExist err) then next fs
          else if IsDir e then
            match os_Mkdir fs sPath with
            | (fs1, Some err) => (fs1, Returned (Some err))
            | (fs1, None) =>
                match recurse ePath sPath fs1 with
                | (fs2, OutOfFuel) => (fs2, OutOfFuel)
                | (fs2, Returned _) => next fs2
                end
            end
          else
            match files_ReadFile ePath with
            | inl err => (fs, Returned (Some err))
            | inr bb =>
                match os_WriteFile fs sPath bb with
                | (fs1, Some err) => (fs1, Returned (Some err))
                | (fs1, None) => next fs1
                end
            end
      end
  end.

(** [safeWriteFromEmbeddedFS]; [fuel] bounds the depth of the recursion. *)
Fixpoint safeWriteFromEmbeddedFS (fuel : nat) (embedPath sysPath : string)
  (fs : gmap string Node) : gmap string Node * Outcome :=
  match fuel with
  | O => (fs, OutOfFuel)
  | S fuel' =>
      match files_ReadDir embedPath with
      | inl err => (fs, Returned (Some err))
      | inr entries =>
          range_entries (safeWriteFromEmbeddedFS fuel') embedPath sysPath entries fs
      end
  end.

(** The tree of the bundle under [embedPath] is at most [d] directories
    deep. *)
Inductive embed_depth : string -> nat -> Prop :=
| depth_unreadable (embedPath : string) (err : error) (d : nat) :
    files_ReadDir embedPath = inl err -> embed_depth embedPath (S d)
| depth_dir (embedPath : string) (entries : list DirEntry) (d : nat) :
    files_ReadDir embedPath = inr entries ->
    (forall e, In e entries -> IsDir e = true ->
               embed_depth (Sprintf_path embedPath (Name e)) d) ->
    embed_depth embedPath (S d).

(** *** Existing entries are kept *)

(** [Stat] reports "does not exist" for an absent entry only. *)
Lemma os_Stat_not_exist (fs : gmap string Node) (name : string) (err : error) :
  os_Stat fs name = Some err -> os_IsNotExist err = true -> fs !! name = None.
Proof.
  unfold os_Stat. destruct (stat_denied name).
  - intros H. injection H as <-. discriminate.
  - destruct (fs !! name); [discriminate | reflexivity].
Qed.

Lemma os_Mkdir_keeps (fs : gmap string Node) (name p : string) (n : Node) :
  fs !! p = Some n -> fst (os_Mkdir fs name) !! p = Some n.
Proof.
  intros Hp. unfold os_Mkdir.
  destruct (mkdir_fault fs name); [exact Hp|].
  destruct (fs !! name) eqn:E; [exact Hp|].
  cbn [fst]. rewrite lookup_insert_ne; [exact Hp | congruence].
Qed.

(** [WriteFile] keeps every entry but the one it writes, which the guard of
    the caller finds absent. *)
Lemma os_WriteFile_keeps (fs : gmap string Node) (name : string) (bb : list byte)
  (p : string) (n : Node) :
  fs !! name = None -> fs !! p = Some n -> fst (os_WriteFile fs name bb) !! p = Some n.
Proof.
  intros Hname Hp. unfold os_WriteFile.
  destruct (write_fault fs name); [exact Hp|].
  rewrite Hname. cbn [fst]. rewrite lookup_insert_ne; [exact Hp | congruence].
Qed.

Lemma range_entries_keeps
  (recurse : string -> string -> gmap string Node -> gmap string Node * Outcome)
  (embedPath sysPath : string) (p : string) (n : Node) :
  (forall e s fs, fs !! p = Some n -> fst (recurse e s fs) !! p = Some n) ->
  forall (entries : list DirEntry) (fs : gmap string Node),
    fs !! p = Some n ->
    fst (range_entries recurse embedPath sysPath entries fs) !! p = Some n.
Proof.
  intros Hrec. induction entries as [|e entries IH]; intros fs Hp; [exact Hp|].
  cbn [range_entries].
  destruct (os_Stat fs (filepath_Join sysPath (Name e))) as [err|] eqn:Est;
    [|apply IH, Hp].
  destruct (os_IsNotExist err) eqn:Ene; cbn [negb]; [|apply IH, Hp].
  pose proof (os_Stat_not_exist _ _ _ Est Ene) as Habsent.
  destruct (IsDir e).
  - pose proof (os_Mkdir_keeps fs (filepath_Join sysPath (Name e)) p n Hp) as Hmk.
    destruct (os_Mkdir fs (filepath_Join sysPath (Name e))) as [fs1 [err1|]];
      cbn [fst] in Hmk; [exact Hmk|].
    pose proof (Hrec (Sprintf_path embedPath (Name e))
                  (filepath_Join sysPath (Name e)) fs1 Hmk) as Hsub.
    destruct (recurse (Sprintf_path embedPath (Name e))
                (filepath_Join sysPath (Name e)) fs1) as [fs2 [r|]];
      cbn [fst] in Hsub; [apply IH, Hsub | exact Hsub].
  - destruct (files_ReadFile (Sprintf_path embedPath (Name e))) as [err1|bb];
      [exact Hp|].
    pose proof (os_WriteFile_keeps fs (filepath_Join sysPath (Name e)) bb p n Habsent Hp)
      as Hwr.
    destruct (os_WriteFile fs (filepath_Join sysPath (Name e)) bb) as [fs1 [err1|]];
      cbn [fst] in Hwr; [exact Hwr | apply IH, Hwr].
Qed.


(** *** The fuel is enough for a bundle of finite depth *)

Lemma range_entries_returns
  (recurse : string -> string -> gmap string Node -> gmap string Node * Outcome)
  (embedPath sysPath : string) :
  forall (entries : list DirEntry),
    (forall e, In e entries -> IsDir e = true ->
       forall s fs, exists fs' r,
         recurse (Sprintf_path embedPath (Name e)) s fs = (fs', Returned r)) ->
    forall fs, exists fs' r,
      range_entries recurse embedPath sysPath entries fs = (fs', Returned r).
Proof.
  induction entries as [|e entries IH]; intros Hrec fs; [cbn; eauto|].
  assert (Hrest : forall fs0, exists fs' r,
             range_entries recurse embedPath sysPath entries fs0 = (fs', Returned r)).
  { apply IH. intros x Hx. apply Hrec. right. exact Hx. }
  cbn [range_entries].
  destruct (os_Stat fs (filepath_Join sysPath (Name e))) as [err|]; [|apply Hrest].
  destruct (negb (os_IsNotExist err)); [apply Hrest|].
  destruct (IsDir e) eqn:Edir.
  - destruct (os_Mkdir fs (filepath_Join sysPath (Name e))) as [fs1 [err1|]]; [eauto|].
    destruct (Hrec e (or_introl eq_refl) Edir (filepath_Join sysPath (Name e)) fs1)
      as (fs2 & r & ->).
    apply Hrest.
  - destruct (files_ReadFile (Sprintf_path embedPath (Name e))) as [err1|bb]; [eauto|].
    destruct (os_WriteFile fs (filepath_Join sysPath (Name e)) bb) as [fs1 [err1|]];
      [eauto | apply Hrest].
Qed.

(** X8: on a bundle whose tree is at most [d] directories deep the call
    returns: a recursion [d] deep is enough. *)
Lemma safeWriteFromEmbeddedFS_returns (embedPath : string) (d : nat) :
  embed_depth embedPath d ->
  forall sysPath fs, exists fs' r,
    safeWriteFromEmbeddedFS d embedPath sysPath fs = (fs', Returned r).
Proof.
  induction 1 as [embedPath err d Hrd | embedPath entries d Hrd _ IH];
    intros sysPath fs; cbn [safeWriteFromEmbeddedFS]; rewrite Hrd; [eauto|].
  apply range_entries_returns. exact IH.
Qed.

(** *** More fuel changes no result *)

Lemma range_entries_more_fuel
  (recurse recurse' : string -> string -> gmap string Node -> gmap string Node * Outcome)
  (embedPath sysPath : string) :
  (forall e s fs fs' r, recurse e s fs = (fs', Returned r) ->
                        recurse' e s fs = (fs', Returned r)) ->
  forall entries fs fs' r,
    range_entries recurse embedPath sysPath entries fs = (fs', Returned r) ->
    range_entries recurse' embedPath sysPath entries fs = (fs', Returned r).
Proof.
  intros Hrec. induction entries as [|e entries IH]; intros fs fs' r; [trivial|].
  cbn [range_entries].
  destruct (os_Stat fs (filepath_Join sysPath (Name e))) as [err|]; [|apply IH].
  destruct (negb (os_IsNotExist err)); [apply IH|].
  destruct (IsDir e).
  - destruct (os_Mkdir fs (filepath_Join sysPath (Name e))) as [fs1 [err1|]]; [trivial|].
    destruct (recurse (Sprintf_path embedPath (Name e))
                (filepath_Join sysPath (Name e)) fs1) as [fs2 [r2|]] eqn:E;
      [|discriminate].
    rewrite (Hrec _ _ _ _ _ E). apply IH.
  - destruct (files_ReadFile (Sprintf_path embedPath (Name e))) as [err1|bb]; [trivial|].
    destruct (os_WriteFile fs (filepath_Join sysPath (Name e)) bb) as [fs1 [err1|]];
      [trivial | apply IH].
Qed.

Lemma safeWriteFromEmbeddedFS_more_fuel (fuel : nat) :
  forall embedPath sysPath fs fs' r,
    safeWriteFromEmbeddedFS fuel embedPath sysPath fs = (fs', Returned r) ->
    safeWriteFromEmbeddedFS (S fuel) embedPath sysPath fs = (fs', Returned r).
Proof.
  induction fuel as [|fuel IH]; intros embedPath sysPath fs fs' r; [discriminate|].
  intros H. cbn [safeWriteFromEmbeddedFS] in H.
  change (safeWriteFromEmbeddedFS (S (S fuel)) embedPath sysPath fs)
    with (match files_ReadDir embedPath with
          | inl err => (fs, Returned (Some err))
          | inr entries =>
              range_entries (safeWriteFromEmbeddedFS (S fuel))
                embedPath sysPath entries fs
          end).
  destruct (files_ReadDir embedPath) as [err|entries]; [exact H|].
  exact (range_entries_more_fuel _ _ embedPath sysPath IH entries fs fs' r H).
Qed.

(** *** A second run, and where an error comes from *)

(** [Stat] does not answer "does not exist" for the path. *)
Definition present (fs : gmap string Node) (name : string) : Prop :=
  stat_denied name = true \/ fs !! name <> None.

Lemma present_skipped (fs : gmap string Node) (name : string) :
  present fs name ->
  match os_Stat fs name with
  | None => True
  | Some err => os_IsNotExist err = false
  end.
Proof.
  unfold present, os_Stat. intros [Hd|He].
  - rewrite Hd. reflexivity.
  - destruct (stat_denied name); [reflexivity|].
    destruct (fs !! name); [exact I | contradiction].
Qed.

Lemma os_Stat_present (fs : gmap string Node) (name : string) :
  match os_Stat fs name with
  | None => True
  | Some err => os_IsNotExist err = false
  end ->
  present fs name.
Proof.
  unfold present, os_Stat. destruct (stat_denied name); [left; reflexivity|].
  destruct (fs !! name); [right; discriminate | discriminate].
Qed.

Lemma present_kept (fs fs' : gmap string Node) (name : string) :
  (forall p n, fs !! p = Some n -> fs' !! p = Some n) ->
  present fs name -> present fs' name.
Proof.
  intros Hsub [Hd|He]; [left; exact Hd|]. right.
  destruct (fs !! name) as [n|] eqn:E; [|contradiction].
  rewrite (Hsub _ _ E). discriminate.
Qed.

Lemma os_Mkdir_made (fs fs1 : gmap string Node) (name : string) :
  os_Mkdir fs name = (fs1, None) -> fs1 !! name = Some Dir.
Proof.
  unfold os_Mkdir. destruct (mkdir_fault fs name); [discriminate|].
  destruct (fs !! name); [discriminate|].
  intros H. injection H as <-. apply lookup_insert_eq.
Qed.

Lemma os_WriteFile_made (fs fs1 : gmap string Node) (name : string) (bb : list byte) :
  os_WriteFile fs name bb = (fs1, None) -> fs1 !! name = Some (File bb).
Proof.
  unfold os_WriteFile. destruct (write_fault fs name); [discriminate|].
  destruct (fs !! name) as [[bb0|]|]; try discriminate;
    intros H; injection H as <-; apply lookup_insert_eq.
Qed.

(** The call only adds entries, whatever the fuel. *)
Lemma safeWriteFromEmbeddedFS_grows (fuel : nat) :
  forall (embedPath sysPath : string) (fs : gmap string Node),
    fs ⊆ fst (safeWriteFromEmbeddedFS fuel embedPath sysPath fs).
Proof.
  induction fuel as [|fuel IH]; intros embedPath sysPath fs; [reflexivity|].
  cbn [safeWriteFromEmbeddedFS].
  destruct (files_ReadDir embedPath) as [err|entries]; [reflexivity|].
  apply map_subseteq_spec. intros p n Hp.
  apply range_entries_keeps; [|exact Hp].
  intros e s fs0 H0.
  exact (proj1 (map_subseteq_spec _ _) (IH e s fs0) _ _ H0).
Qed.

Lemma range_entries_all_present
  (recurse : string -> string -> gmap string Node -> gmap string Node * Outcome)
  (embedPath sysPath : string) (fs : gmap string Node) :
  forall entries : list DirEntry,
    (forall e, In e entries -> present fs (filepath_Join sysPath (Name e))) ->
    range_entries recurse embedPath sysPath entries fs = (fs, Returned None).
Proof.
  induction entries as [|e entries IH]; intros Hall; [reflexivity|].
  cbn [range_entries].
  pose proof (present_skipped _ _ (Hall e (or_introl eq_refl))) as Hskip.
  assert (Hrest : range_entries recurse embedPath sysPath entries fs = (fs, Returned None)).
  { apply IH. intros x Hx. apply Hall. right. exact Hx. }
  destruct (os_Stat fs (filepath_Join sysPath (Name e))) as [err|]; [|exact Hrest].
  rewrite Hskip. exact Hrest.
Qed.

Lemma range_entries_leaves_present
  (recurse : string -> string -> gmap string Node -> gmap string Node * Outcome)
  (embedPath sysPath : string) :
  (forall e s fs p n, fs !! p = Some n -> fst (recurse e s fs) !! p = Some n) ->
  forall (entries : list DirEntry) (fs fs' : gmap string Node),
    range_entries recurse embedPath sysPath entries fs = (fs', Returned None) ->
    forall e, In e entries -> present fs' (filepath_Join sysPath (Name e)).
Proof.
  intros Hkeep. induction entries as [|e entries IH]; intros fs fs' Hrun x Hx;
    [destruct Hx|].
  cbn [range_entries] in Hrun.
  set (sPath := filepath_Join sysPath (Name e)) in *.
  assert (Hlater : forall fs1,
             range_entries recurse embedPath sysPath entries fs1 = (fs', Returned None) ->
             present fs1 sPath -> present fs' (filepath_Join sysPath (Name x))).
  { intros fs1 Hrest Hhere. destruct Hx as [<-|Hx]; [|exact (IH fs1 fs' Hrest x Hx)].
    apply (present_kept fs1); [|exact Hhere].
    intros p n Hp.
    pose proof (range_entries_keeps recurse embedPath sysPath p n
                  (fun e0 s0 fs0 => Hkeep e0 s0 fs0 p n) entries fs1 Hp) as Hk.
    rewrite Hrest in Hk. exact Hk. }
  destruct (os_Stat fs sPath) as [err|] eqn:Est.
  - destruct (os_IsNotExist err) eqn:Ene; cbn [negb] in Hrun.
    + destruct (IsDir e).
      * destruct (os_Mkdir fs sPath) as [fs1 [err1|]] eqn:Emk; [discriminate Hrun|].
        pose proof (os_Mkdir_made _ _ _ Emk) as Hmade.
        pose proof (Hkeep (Sprintf_path embedPath (Name e)) sPath fs1 sPath Dir Hmade)
          as Hsub.
        destruct (recurse (Sprintf_path embedPath (Name e)) sPath fs1) as [fs2 [r|]];
          [|discriminate Hrun].
        cbn [fst] in Hsub. apply (Hlater fs2 Hrun).
        right. rewrite Hsub. discriminate.
      * destruct (files_ReadFile (Sprintf_path embedPath (Name e))) as [err1|bb];
          [discriminate Hrun|].
        destruct (os_WriteFile fs sPath bb) as [fs1 [err1|]] eqn:Ewr; [discriminate Hrun|].
        pose proof (os_WriteFile_made _ _ _ _ Ewr) as Hmade.
        apply (Hlater fs1 Hrun). right. rewrite Hmade. discriminate.
    + apply (Hlater fs Hrun). apply os_Stat_present. rewrite Est. exact Ene.
  - apply (Hlater fs Hrun). apply os_Stat_present. rewrite Est. exact I.
Qed.

(** X9: a second run changes nothing. After a call that returned no error,
    every entry of the bundle's top directory is found by [Stat], so a call
    on the result skips them all and returns no error. *)
Theorem safeWriteFromEmbeddedFS_again (fuel fuel' : nat) (embedPath sysPath : string)
  (fs fs' : gmap string Node) :
  safeWriteFromEmbeddedFS fuel embedPath sysPath fs = (fs', Returned None) ->
  safeWriteFromEmbeddedFS (S fuel') embedPath sysPath fs' = (fs', Returned None).
Proof.
  destruct fuel as [|fuel]; [discriminate|].
  cbn [safeWriteFromEmbeddedFS].
  destruct (files_ReadDir embedPath) as [err|entries]; [discriminate|].
  intros Hrun. apply range_entries_all_present.
  apply (range_entries_leaves_present (safeWriteFromEmbeddedFS fuel) embedPath sysPath)
    with (fs := fs); [|exact Hrun].
  intros e s fs0 p n Hp.
  exact (proj1 (map_subseteq_spec _ _) (safeWriteFromEmbeddedFS_grows fuel e s fs0) _ _ Hp).
Qed.

(** An operation on the entry [e] of the directory being copied fails with
    [err]: the [Mkdir] of its directory, the read of its file from the
    bundle, or the write of its file. *)
Definition entry_failure (embedPath sysPath : string) (e : DirEntry) (err : error)
  : Prop :=
  (IsDir e = true
   /\ exists fs1, snd (os_Mkdir fs1 (filepath_Join sysPath (Name e))) = Some err)
  \/ (IsDir e = false
      /\ (files_ReadFile (Sprintf_path embedPath (Name e)) = inl err
          \/ exists fs1 bb,
               files_ReadFile (Sprintf_path embedPath (Name e)) = inr bb
               /\ snd (os_WriteFile fs1 (filepath_Join sysPath (Name e)) bb) = Some err)).

Lemma range_entries_error
  (recurse : string -> string -> gmap string Node -> gmap string Node * Outcome)
  (embedPath sysPath : string) (err : error) :
  forall (entries : list DirEntry) (fs fs' : gmap string Node),
    range_entries recurse embedPath sysPath entries fs = (fs', Returned (Some err)) ->
    exists e, In e entries /\ entry_failure embedPath sysPath e err.
Proof.
  induction entries as [|e entries IH]; intros fs fs' Hrun; [discriminate Hrun|].
  cbn [range_entries] in Hrun.
  assert (Hrest : forall fs1,
             range_entries recurse embedPath sysPath entries fs1
             = (fs', Returned (Some err)) ->
             exists x, In x (e :: entries) /\ entry_failure embedPath sysPath x err).
  { intros fs1 H1. destruct (IH fs1 fs' H1) as (x & Hx & Hf).
    exists x. split; [right; exact Hx | exact Hf]. }
  destruct (os_Stat fs (filepath_Join sysPath (Name e))) as [serr|];
    [|exact (Hrest fs Hrun)].
  destruct (negb (os_IsNotExist serr)); [exact (Hrest fs Hrun)|].
  destruct (IsDir e) eqn:Edir.
  - destruct (os_Mkdir fs (filepath_Join sysPath (Name e))) as [fs1 [err1|]] eqn:Emk.
    + injection Hrun as _ ->. exists e. split; [left; reflexivity|].
      left. split; [exact Edir|]. exists fs. rewrite Emk. reflexivity.
    + destruct (recurse (Sprintf_path embedPath (Name e))
                  (filepath_Join sysPath (Name e)) fs1) as [fs2 [r|]];
        [exact (Hrest fs2 Hrun) | discriminate Hrun].
  - destruct (files_ReadFile (Sprintf_path embedPath (Name e))) as [err1|bb] eqn:Erd.
    + injection Hrun as _ ->. exists e. split; [left; reflexivity|].
      right. split; [exact Edir|]. left. exact Erd.
    + destruct (os_WriteFile fs (filepath_Join sysPath (Name e)) bb) as [fs1 [err1|]] eqn:Ewr.
      * injection Hrun as _ ->. exists e. split; [left; reflexivity|].
        right. split; [exact Edir|]. right. exists fs, bb.
        split; [exact Erd|]. rewrite Ewr. reflexivity.
      * exact (Hrest fs1 Hrun).
Qed.

(** X10: an error the call returns comes from the directory it was called
    for: the read of that directory in the bundle, or an operation on one of
    its entries. An error below, in a recursive call, is dropped and never
    returned. *)
Theorem safeWriteFromEmbeddedFS_error_origin (fuel : nat) (embedPath sysPath : string)
  (fs fs' : gmap string Node) (err : error) :
  safeWriteFromEmbeddedFS fuel embedPath sysPath fs = (fs', Returned (Some err)) ->
  files_ReadDir embedPath = inl err
  \/ exists entries e,
       files_ReadDir embedPath = inr entries
       /\ In e entries
       /\ entry_failure embedPath sysPath e err.
Proof.
  destruct fuel as [|fuel]; [discriminate|].
  cbn [safeWriteFromEmbeddedFS].
  destruct (files_ReadDir embedPath) as [rerr|entries].
  - intros H. injection H as _ ->. left. reflexivity.
  - intros Hrun. right.
    destruct (range_entries_error _ _ _ _ entries fs fs' Hrun) as (e & He & Hf).
    exists entries, e. split; [reflexivity|]. split; assumption.
Qed.

End FileSystem.

(** *** The root command *)

(** What the command does to the world outside its variables, in order. *)
Inductive Event : Type :=
| EvLock
| EvUnlock
| EvLog (level msg : string)
| EvSync
| EvChdir (dir : string)
| EvConfigNew (path : string)
| EvConfigRead
| EvNewProxy (e : Edition)
| EvNewInternalBus
| EvLoadPlugins
| EvEnablePlugins
| EvDisablePlugins
| EvReloadPlugins
| EvListenAndServe (e : Edition)
| EvAwaitSignal
| EvProxyReload (e : Edition).

Section Root.

(** The values of the packages outside the file. *)
Variables Logger ConfigHandle ConfigMap ProxyConfig Proxy PluginManager : Type.

(** The package-level variables of [root.go], the file system and the trace
    of events. [files] and [mu] are below: the bundle is read only, the
    mutex shows as [EvLock] and [EvUnlock]. *)
Record Globals : Type := mkGlobals
  { configPath : string;
    workingDir : string;
    environment : string;
    logger : option Logger;
    pluginManager : PluginManager;
    proxies : Edition -> option Proxy;
    fs : gmap string Node;
    trace : list Event }.

Definition emit (g : Globals) (ev : Event) : Globals :=
  {| configPath := configPath g; workingDir := workingDir g;
     environment := environment g; logger := logger g;
     pluginManager := pluginManager g; proxies := proxies g;
     fs := fs g; trace := trace g ++ [ev] |}.

Definition set_logger (g : Globals) (l : option Logger) : Globals :=
  {| configPath := configPath g; workingDir := workingDir g;
     environment := environment g; logger := l;
     pluginManager := pluginManager g; proxies := proxies g;
     fs := fs g; trace := trace g |}.

Definition set_pluginManager (g : Globals) (pm : PluginManager) : Globals :=
  {| configPath := configPath g; workingDir := workingDir g;
     environment := environment g; logger := logger g;
     pluginManager := pm; proxies := proxies g;
     fs := fs g; trace := trace g |}.

Definition set_fs (g : Globals) (fs' : gmap string Node) : Globals :=
  {| configPath := configPath g; workingDir := workingDir g;
     environment := environment g; logger := logger g;
     pluginManager := pluginManager g; proxies := proxies g;
     fs := fs'; trace := trace g |}.

(** [proxies[n] = p]. *)
Definition set_proxy (g : Globals) (n : Edition) (p : Proxy) : Globals :=
  {| configPath := configPath g; workingDir := workingDir g;
     environment := environment g; logger := logger g;
     pluginManager := pluginManager g;
     proxies := fun m => if Edition_eqb m n then Some p else proxies g m;
     fs := fs g; trace := trace g |}.

Variable zap_NewDevelopment : option Logger * option error.
Variable zap_NewProduction : option Logger * option error.

(** [newLogger]; the message names the package variable [environment]. *)
Definition newLogger (environment env : string) : option Logger * option error :=
  if String.eqb env devEnvironment then zap_NewDevelopment
  else if String.eqb env prodEnvironment then zap_NewProduction
  else (None, Some (fmt_Errorf "unsupported environment %q" environment)).

Variable os_Chdir : string -> option error.
Variable stat_denied : string -> bool.
Variable mkdir_fault : gmap string Node -> string -> option Errno.
Variable write_fault : gmap string Node -> string -> option Errno.
Variable files_ReadDir : string -> Result (list DirEntry).
Variable files_ReadFile : string -> Result (list byte).
Variable filepath_Join : string -> string -> string.
Variable config_New : string -> Result ConfigHandle.
Variable config_Read : ConfigHandle -> Result ConfigMap.
Variable java_NewProxyConfigFromMap : ConfigMap -> Result ProxyConfig.
Variable bedrock_NewProxyConfigFromMap : ConfigMap -> Result ProxyConfig.
Variable infrared_NewProxy : ProxyConfig -> Result Proxy.
Variable Proxy_Reload : Proxy -> ProxyConfig -> Proxy * option error.
Variable PluginManager_new : (Edition -> option Proxy) -> option Logger -> PluginManager.
Variable LoadPlugins : PluginManager -> ConfigMap -> PluginManager.
Variable EnablePlugins : PluginManager -> PluginManager.
Variable DisablePlugins : PluginManager -> PluginManager.
Variable ReloadPlugins : PluginManager -> ConfigMap -> PluginManager.

(** The order in which [range proxies] visits the keys; Go leaves it open. *)
Variable range_order : list Edition.

(** [defer logger.Sync()] and [defer pluginManager.DisablePlugins()]. *)
Definition deferred_Sync (g : Globals) : Globals := emit g EvSync.

Definition deferred_DisablePlugins (g : Globals) : Globals :=
  emit (set_pluginManager g (DisablePlugins (pluginManager g))) EvDisablePlugins.

(** [RunE] from [config.New] on (lines 72-130). *)
Definition RunE_serve (g : Globals) : Globals * Outcome :=
  match config_New (configPath g) with
  | inl err => (deferred_Sync g, Returned (Some err))
  | inr cfg =>
  let g := emit g (EvConfigNew (configPath g)) in
  match config_Read cfg with
  | inl err => (deferred_Sync g, Returned (Some err))
  | inr data =>
  let g := emit g EvConfigRead in
  match java_NewProxyConfigFromMap data with
  | inl err => (deferred_Sync g, Returned (Some err))
  | inr javaPrxCfg =>
  match infrared_NewProxy javaPrxCfg with
  | inl err => (deferred_Sync g, Returned (Some err))
  | inr javaPrx =>
  let g := set_proxy (emit g (EvNewProxy JavaEdition)) JavaEdition javaPrx in
  match bedrock_NewProxyConfigFromMap data with
  | inl err => (deferred_Sync g, Returned (Some err))
  | inr bedrockPrxCfg =>
  match infrared_NewProxy bedrockPrxCfg with
  | inl err => (deferred_Sync g, Returned (Some err))
  | inr bedrockPrx =>
  let g := set_proxy (emit g (EvNewProxy BedrockEdition)) BedrockEdition bedrockPrx in
  let g := emit g EvNewInternalBus in
  let g := set_pluginManager g (PluginManager_new (proxies g) (logger g)) in
  let g := emit g (EvLog "info" "loading plugins") in
  let g := emit (set_pluginManager g (LoadPlugins (pluginManager g) data)) EvLoadPlugins in
  let g := emit g (EvLog "info" "enabling plugins") in
  let g := emit (set_pluginManager g (EnablePlugins (pluginManager g))) EvEnablePlugins in
  let g := emit g (EvLog "info" "starting proxies") in
  let g := fold_left
             (fun g n => match proxies g n with
                         | Some _ => emit g (EvListenAndServe n)
                         | None => g
                         end) range_order g in
  let g := emit g EvAwaitSignal in
  (deferred_Sync (deferred_DisablePlugins g), Returned None)
  end end end end end end.

(** [rootCmd.RunE]. *)
Definition RunE (fuel : nat) (g : Globals) : Globals * Outcome :=
  let '(lg, err) := newLogger (environment g) (environment g) in
  let g := set_logger g lg in
  match err with
  | Some e => (g, Returned (Some e))
  | None =>
      match os_Chdir (workingDir g) with
      | Some e => (deferred_Sync g, Returned (Some e))
      | None =>
          let g := emit g (EvChdir (workingDir g)) in
          let g := emit g (EvLog "info" "loading proxy from config") in
          let '(g, seeded) :=
            match os_Stat stat_denied (fs g) (configPath g) with
            | Some err =>
                if os_IsNotExist err then
                  let '(fs', out) :=
                    safeWriteFromEmbeddedFS stat_denied mkdir_fault write_fault
                      files_ReadDir files_ReadFile filepath_Join
                      fuel configDefaultPath "." (fs g) in
                  (set_fs g fs', out)
                else (g, Returned None)
            | None => (g, Returned None)
            end in
          match seeded with
          | OutOfFuel => (g, OutOfFuel)
          | Returned (Some e) => (deferred_Sync g, Returned (Some e))
          | Returned None => RunE_serve g
          end
      end
  end.

(** One round of the loop of [onConfigChange] over [proxies]. *)
Definition reload_proxy (prxCfgs : Edition -> ProxyConfig) (g : Globals) (n : Edition)
  : Globals :=
  match proxies g n with
  | None => g
  | Some p =>
      let '(p', err) := Proxy_Reload p (prxCfgs n) in
      let g := set_proxy (emit g (EvProxyReload n)) n p' in
      match err with
      | Some _ => emit g (EvLog "error" "failed to reload proxy")
      | None => g
      end
  end.

(** [onConfigChange]; [defer mu.Unlock()] ends every path. *)
Definition onConfigChange (cfg : ConfigMap) (g : Globals) : Globals :=
  let g := emit g EvLock in
  match java_NewProxyConfigFromMap cfg with
  | inl err => emit (emit g (EvLog "error" "failed to load java config")) EvUnlock
  | inr javaPrxCfg =>
      match bedrock_NewProxyConfigFromMap cfg with
      | inl err => emit (emit g (EvLog "error" "failed to load bedrock config")) EvUnlock
      | inr bedrockPrxCfg =>
          let prxCfgs := fun n => match n with
                                  | JavaEdition => javaPrxCfg
                                  | BedrockEdition => bedrockPrxCfg
                                  end in
          let g := emit g (EvLog "debug" "Reloading proxies") in
          let g := fold_left (reload_proxy prxCfgs) range_order g in
          let g := emit g (EvLog "debug" "Reloading plugins") in
          let g := emit (set_pluginManager g (ReloadPlugins (pluginManager g) cfg))
                     EvReloadPlugins in
          emit g EvUnlock
      end
  end.

(** Modelled from the spec: the program's [main], which is not among the
    sources, turns the error of [Execute] into the exit code (section 6:
    0 on a clean shutdown, non-zero on a fatal startup error). *)
Definition exit_code (o : Outcome) : option Z :=
  match o with
  | Returned None => Some 0
  | Returned (Some _) => Some 1
  | OutOfFuel => None
  end.

(** *** The claims about the root command *)

Definition unsupported_environment (env : string) : error :=
  fmt_Errorf "unsupported environment %q" env.

Lemma newLogger_unsupported (env : string) :
  env <> devEnvironment -> env <> prodEnvironment ->
  newLogger env env = (None, Some (unsupported_environment env)).
Proof.
  intros Hdev Hprod. unfold newLogger.
  destruct (String.eqb_spec env devEnvironment) as [E|_]; [contradiction|].
  destruct (String.eqb_spec env prodEnvironment) as [E|_]; [contradiction|].
  reflexivity.
Qed.

(** C6: [dev] selects the development logger and [prod] the production
    logger; for every other value of the flag [newLogger] fails, and [RunE]
    returns that error at once: no event has happened, no variable but the
    (nil) logger and no file has changed, and the exit code is not zero. *)
Theorem environment_dev_or_prod (fuel : nat) (g : Globals) :
  (environment g = devEnvironment ->
     newLogger (environment g) (environment g) = zap_NewDevelopment)
  /\ (environment g = prodEnvironment ->
       newLogger (environment g) (environment g) = zap_NewProduction)
  /\ (environment g <> devEnvironment -> environment g <> prodEnvironment ->
       newLogger (environment g) (environment g)
       = (None, Some (unsupported_environment (environment g)))
       /\ RunE fuel g
          = (set_logger g None,
             Returned (Some (unsupported_environment (environment g))))
       /\ trace (fst (RunE fuel g)) = trace g
       /\ fs (fst (RunE fuel g)) = fs g
       /\ proxies (fst (RunE fuel g)) = proxies g
       /\ exit_code (snd (RunE fuel g)) = Some 1).
Proof.
  split; [|split].
  - intros ->. reflexivity.
  - intros ->. reflexivity.
  - intros Hdev Hprod.
    pose proof (newLogger_unsupported _ Hdev Hprod) as Hlog.
    assert (Hrun : RunE fuel g
                   = (set_logger g None,
                      Returned (Some (unsupported_environment (environment g))))).
    { unfold RunE. rewrite Hlog. reflexivity. }
    split; [exact Hlog|]. split; [exact Hrun|].
    rewrite Hrun. repeat split.
Qed.

(** C2: when the new configuration does not parse for Java or for Bedrock,
    [onConfigChange] takes the lock, logs the failure and returns: no proxy
    and no plugin is reloaded, and every proxy and the plugin manager are as
    they were. *)
Theorem onConfigChange_parse_failure (cfg : ConfigMap) (g : Globals) :
  (exists e, java_NewProxyConfigFromMap cfg = inl e)
  \/ (exists e, bedrock_NewProxyConfigFromMap cfg = inl e) ->
  (exists msg,
     onConfigChange cfg g = emit (emit (emit g EvLock) (EvLog "error" msg)) EvUnlock
     /\ trace (onConfigChange cfg g)
        = trace g ++ [EvLock; EvLog "error" msg; EvUnlock])
  /\ proxies (onConfigChange cfg g) = proxies g
  /\ pluginManager (onConfigChange cfg g) = pluginManager g
  /\ (forall n, ~ In (EvProxyReload n) (skipn (length (trace g)) (trace (onConfigChange cfg g))))
  /\ ~ In EvReloadPlugins (skipn (length (trace g)) (trace (onConfigChange cfg g))).
Proof.
  intros Hfail.
  assert (Hrun : exists msg,
             onConfigChange cfg g
             = emit (emit (emit g EvLock) (EvLog "error" msg)) EvUnlock).
  { unfold onConfigChange.
    destruct (java_NewProxyConfigFromMap cfg) as [e|javaPrxCfg]; [eauto|].
    destruct (bedrock_NewProxyConfigFromMap cfg) as [e|bedrockPrxCfg]; [eauto|].
    destruct Hfail as [[e He] | [e He]]; discriminate He. }
  destruct Hrun as [msg Hrun]. rewrite Hrun.
  assert (Htrace : trace (emit (emit (emit g EvLock) (EvLog "error" msg)) EvUnlock)
                   = trace g ++ [EvLock; EvLog "error" msg; EvUnlock]).
  { cbn [emit trace]. rewrite <- !List.app_assoc. reflexivity. }
  split; [exists msg; split; [reflexivity | exact Htrace]|].
  split; [reflexivity|]. split; [reflexivity|].
  rewrite Htrace, List.skipn_app, List.skipn_all, Nat.sub_diag. cbn [skipn app].
  split.
  - intros n [H|[H|[H|[]]]]; discriminate H.
  - intros [H|[H|[H|[]]]]; discriminate H.
Qed.

(** *** More of the root command's behaviour *)

Definition emit_all (g : Globals) (evs : list Event) : Globals :=
  fold_left emit evs g.

(** The events that come before the proxies are served: not a listening
    proxy, not a plugin loaded, enabled or disabled, not the event bus, not
    the wait for a signal. *)
Definition before_serving (ev : Event) : bool :=
  match ev with
  | EvListenAndServe _ | EvNewInternalBus | EvLoadPlugins | EvEnablePlugins
  | EvDisablePlugins | EvAwaitSignal => false
  | _ => true
  end.

(** The events of the mutex. *)
Definition is_lock_event (ev : Event) : bool :=
  match ev with
  | EvLock | EvUnlock => true
  | _ => false
  end.

(** The configuration [onConfigChange] hands to the proxy of an edition. *)
Definition config_of (javaPrxCfg bedrockPrxCfg : ProxyConfig) (n : Edition) : ProxyConfig :=
  match n with
  | JavaEdition => javaPrxCfg
  | BedrockEdition => bedrockPrxCfg
  end.

Lemma emit_all_fields (evs : list Event) :
  forall g,
    trace (emit_all g evs) = trace g ++ evs
    /\ proxies (emit_all g evs) = proxies g
    /\ pluginManager (emit_all g evs) = pluginManager g
    /\ fs (emit_all g evs) = fs g
    /\ logger (emit_all g evs) = logger g.
Proof.
  induction evs as [|ev evs IH]; intros g; cbn [emit_all fold_left].
  - rewrite List.app_nil_r. repeat split.
  - destruct (IH (emit g ev)) as (Ht & Hp & Hpm & Hfs & Hl).
    unfold emit_all in *. rewrite Ht, Hp, Hpm, Hfs, Hl. cbn [emit trace].
    rewrite <- List.app_assoc. repeat split.
Qed.

(** The loop that starts the proxies emits one event for every edition
    [range] visits, when both proxies are registered. *)
Lemma listen_all (order : list Edition) :
  forall g,
    (forall n, proxies g n <> None) ->
    fold_left (fun g n => match proxies g n with
                          | Some _ => emit g (EvListenAndServe n)
                          | None => g
                          end) order g
    = emit_all g (List.map EvListenAndServe order).
Proof.
  induction order as [|n order IH]; intros g Hall; [reflexivity|].
  cbn [fold_left List.map emit_all].
  destruct (proxies g n) eqn:E; [|destruct (Hall n E)].
  apply IH. intros m. cbn [emit proxies]. apply Hall.
Qed.

(** When [RunE] fails from [config.New] on, it has served nothing. *)
Lemma RunE_serve_failure (g : Globals) (e : error) :
  snd (RunE_serve g) = Returned (Some e) ->
  pluginManager (fst (RunE_serve g)) = pluginManager g
  /\ exists evs,
       trace (fst (RunE_serve g)) = trace g ++ evs
       /\ forallb before_serving evs = true.
Proof.
  unfold RunE_serve.
  destruct (config_New (configPath g)) as [e1|cfg];
    [intros _; split; [reflexivity|]; eexists; split; [reflexivity | reflexivity]|].
  destruct (config_Read cfg) as [e1|data];
    [intros _; split; [reflexivity|]; eexists; split;
     [cbn; rewrite <- !List.app_assoc; reflexivity | reflexivity]|].
  destruct (java_NewProxyConfigFromMap data) as [e1|jc];
    [intros _; split; [reflexivity|]; eexists; split;
     [cbn; rewrite <- !List.app_assoc; reflexivity | reflexivity]|].
  destruct (infrared_NewProxy jc) as [e1|jp];
    [intros _; split; [reflexivity|]; eexists; split;
     [cbn; rewrite <- !List.app_assoc; reflexivity | reflexivity]|].
  destruct (bedrock_NewProxyConfigFromMap data) as [e1|bc];
    [intros _; split; [reflexivity|]; eexists; split;
     [cbn; rewrite <- !List.app_assoc; reflexivity | reflexivity]|].
  destruct (infrared_NewProxy bc) as [e1|bp];
    [intros _; split; [reflexivity|]; eexists; split;
     [cbn; rewrite <- !List.app_assoc; reflexivity | reflexivity]|].
  cbn [snd]. discriminate.
Qed.

(** X11: a startup that fails has served nothing: when [RunE] returns an
    error, no proxy listens, no plugin was loaded, enabled or disabled, and
    the plugin manager is the one from before. *)
Theorem RunE_failure_serves_nothing (fuel : nat) (g : Globals) (e : error) :
  snd (RunE fuel g) = Returned (Some e) ->
  pluginManager (fst (RunE fuel g)) = pluginManager g
  /\ exists evs,
       trace (fst (RunE fuel g)) = trace g ++ evs
       /\ forallb before_serving evs = true.
Proof.
  unfold RunE.
  destruct (newLogger (environment g) (environment g)) as [lg [err|]].
  { intros _. split; [reflexivity|]. exists []. rewrite List.app_nil_r. split; reflexivity. }
  cbn [set_logger workingDir].
  destruct (os_Chdir (workingDir g)) as [err|].
  { intros _. split; [reflexivity|]. exists [EvSync]. split; reflexivity. }
  match goal with
  | |- context [match ?m with pair g0 seeded => _ end] =>
      assert (Hseed : exists fs', m = (set_fs (emit (emit (set_logger g lg)
                                                 (EvChdir (workingDir g)))
                                           (EvLog "info" "loading proxy from config")) fs',
                                        snd m));
        [|destruct Hseed as [fs' Hseed]; rewrite Hseed; destruct (snd m) as [[err|]|]]
  end.
  { cbn [emit set_logger fs configPath].
    destruct (os_Stat stat_denied (fs g) (configPath g)) as [serr|];
      [|eexists; reflexivity].
    destruct (os_IsNotExist serr); [|eexists; reflexivity].
    destruct (safeWriteFromEmbeddedFS _ _ _ _ _ _ fuel configDefaultPath "." (fs g))
      as [fs' out].
    exists fs'. reflexivity. }
  - intros _. split; [reflexivity|].
    eexists. split; [cbn; rewrite <- !List.app_assoc; reflexivity | reflexivity].
  - intros Hfail. destruct (RunE_serve_failure _ _ Hfail) as (Hpm & evs & Ht & Hq).
    split; [rewrite Hpm; reflexivity|].
    exists ([EvChdir (workingDir g); EvLog "info" "loading proxy from config"] ++ evs).
    split; [rewrite Ht; cbn; rewrite <- !List.app_assoc; reflexivity | exact Hq].
  - cbn [snd]. discriminate.
Qed.

Lemma RunE_serve_deferred (g : Globals) :
  match snd (RunE_serve g) with
  | Returned (Some _) => exists pre, trace (fst (RunE_serve g)) = pre ++ [EvSync]
  | Returned None =>
      exists pre,
        trace (fst (RunE_serve g)) = pre ++ [EvAwaitSignal; EvDisablePlugins; EvSync]
  | OutOfFuel => False
  end.
Proof.
  unfold RunE_serve.
  destruct (config_New (configPath g)) as [e1|cfg]; [eexists; reflexivity|].
  destruct (config_Read cfg) as [e1|data]; [eexists; reflexivity|].
  destruct (java_NewProxyConfigFromMap data) as [e1|jc]; [eexists; reflexivity|].
  destruct (infrared_NewProxy jc) as [e1|jp]; [eexists; reflexivity|].
  destruct (bedrock_NewProxyConfigFromMap data) as [e1|bc]; [eexists; reflexivity|].
  destruct (infrared_NewProxy bc) as [e1|bp]; [eexists; reflexivity|].
  cbn [snd fst deferred_Sync deferred_DisablePlugins emit set_pluginManager trace].
  match goal with
  | |- exists pre, ((?x ++ _) ++ _) ++ _ = _ => exists x
  end.
  rewrite <- !List.app_assoc. reflexivity.
Qed.

(** X13: the deferred calls run on every return. Once the logger is built,
    [logger.Sync] is the last thing [RunE] does, on an error too; on a clean
    return the plugins are disabled right before it, after the wait for the
    signal. *)
Theorem RunE_deferred (fuel : nat) (g : Globals) :
  snd (newLogger (environment g) (environment g)) = None ->
  match snd (RunE fuel g) with
  | Returned (Some _) => exists pre, trace (fst (RunE fuel g)) = pre ++ [EvSync]
  | Returned None =>
      exists pre,
        trace (fst (RunE fuel g)) = pre ++ [EvAwaitSignal; EvDisablePlugins; EvSync]
  | OutOfFuel => True
  end.
Proof.
  unfold RunE.
  destruct (newLogger (environment g) (environment g)) as [lg [err|]];
    [discriminate|]. intros _.
  cbn [set_logger workingDir].
  destruct (os_Chdir (workingDir g)) as [err|]; [eexists; reflexivity|].
  cbn [emit set_logger fs configPath].
  assert (Hserve : forall g1,
             match snd (RunE_serve g1) with
             | Returned (Some _) => exists pre, trace (fst (RunE_serve g1)) = pre ++ [EvSync]
             | Returned None =>
                 exists pre,
                   trace (fst (RunE_serve g1))
                   = pre ++ [EvAwaitSignal; EvDisablePlugins; EvSync]
             | OutOfFuel => True
             end).
  { intros g1. pose proof (RunE_serve_deferred g1) as H.
    destruct (snd (RunE_serve g1)) as [[e1|]|]; [exact H | exact H | exact I]. }
  destruct (os_Stat stat_denied (fs g) (configPath g)) as [serr|]; [|apply Hserve].
  destruct (os_IsNotExist serr); [|apply Hserve].
  destruct (safeWriteFromEmbeddedFS _ _ _ _ _ _ fuel configDefaultPath "." (fs g))
    as [fs' [[err|]|]]; [eexists; reflexivity | apply Hserve | exact I].
Qed.

(** [RunE] up to [config.New], when the logger is built, the working
    directory is entered and the configuration file is found. *)
Lemma RunE_reaches_serve (fuel : nat) (g : Globals) :
  snd (newLogger (environment g) (environment g)) = None ->
  os_Chdir (workingDir g) = None ->
  present stat_denied (fs g) (configPath g) ->
  RunE fuel g
  = RunE_serve
      (emit (emit (set_logger g (fst (newLogger (environment g) (environment g))))
               (EvChdir (workingDir g)))
         (EvLog "info" "loading proxy from config")).
Proof.
  intros Hlog Hcd Hp. unfold RunE.
  destruct (newLogger (environment g) (environment g)) as [lg [err|]];
    [discriminate Hlog|].
  cbn [fst set_logger workingDir]. rewrite Hcd.
  cbn [emit set_logger fs configPath].
  apply present_skipped in Hp.
  destruct (os_Stat stat_denied (fs g) (configPath g)) as [serr|]; [|reflexivity].
  rewrite Hp. reflexivity.
Qed.

Lemma Edition_eqb_eq (a b : Edition) : Edition_eqb a b = true <-> a = b.
Proof. destruct a, b; cbn; split; congruence. Qed.

(** X14: the Java proxy is registered before the Bedrock configuration is
    looked at. When the Bedrock configuration does not parse, or its proxy
    cannot be made, [RunE] returns that error with the new Java proxy in
    [proxies], the Bedrock entry as it was, and nothing served. *)
Theorem RunE_bedrock_failure (fuel : nat) (g : Globals) (cfg : ConfigHandle)
  (data : ConfigMap) (javaPrxCfg : ProxyConfig) (javaPrx : Proxy) (e : error) :
  snd (newLogger (environment g) (environment g)) = None ->
  os_Chdir (workingDir g) = None ->
  present stat_denied (fs g) (configPath g) ->
  config_New (configPath g) = inr cfg ->
  config_Read cfg = inr data ->
  java_NewProxyConfigFromMap data = inr javaPrxCfg ->
  infrared_NewProxy javaPrxCfg = inr javaPrx ->
  (bedrock_NewProxyConfigFromMap data = inl e
   \/ exists bedrockPrxCfg,
        bedrock_NewProxyConfigFromMap data = inr bedrockPrxCfg
        /\ infrared_NewProxy bedrockPrxCfg = inl e) ->
  snd (RunE fuel g) = Returned (Some e)
  /\ proxies (fst (RunE fuel g)) JavaEdition = Some javaPrx
  /\ proxies (fst (RunE fuel g)) BedrockEdition = proxies g BedrockEdition.
Proof.
  intros Hlog Hcd Hp Hnew Hread Hjava Hjp Hbed.
  rewrite (RunE_reaches_serve fuel g Hlog Hcd Hp).
  unfold RunE_serve. cbn [emit set_logger configPath].
  rewrite Hnew, Hread, Hjava, Hjp.
  destruct Hbed as [Hbed | (bc & Hbed & Hbp)]; rewrite Hbed; [|rewrite Hbp];
    repeat split.
Qed.

(** X15: a clean run. When every step of the startup succeeds, [RunE]
    registers the Java and the Bedrock proxy made of the one configuration
    read, hands the plugin manager built over them to [LoadPlugins],
    [EnablePlugins] and, on return, [DisablePlugins], and starts a proxy for
    every edition [range] visits only after the plugins are enabled. *)
Theorem RunE_clean_run (fuel : nat) (g : Globals) (cfg : ConfigHandle)
  (data : ConfigMap) (javaPrxCfg bedrockPrxCfg : ProxyConfig)
  (javaPrx bedrockPrx : Proxy) :
  snd (newLogger (environment g) (environment g)) = None ->
  os_Chdir (workingDir g) = None ->
  present stat_denied (fs g) (configPath g) ->
  config_New (configPath g) = inr cfg ->
  config_Read cfg = inr data ->
  java_NewProxyConfigFromMap data = inr javaPrxCfg ->
  infrared_NewProxy javaPrxCfg = inr javaPrx ->
  bedrock_NewProxyConfigFromMap data = inr bedrockPrxCfg ->
  infrared_NewProxy bedrockPrxCfg = inr bedrockPrx ->
  snd (RunE fuel g) = Returned None
  /\ proxies (fst (RunE fuel g)) JavaEdition = Some javaPrx
  /\ proxies (fst (RunE fuel g)) BedrockEdition = Some bedrockPrx
  /\ pluginManager (fst (RunE fuel g))
     = DisablePlugins
         (EnablePlugins
            (LoadPlugins
               (PluginManager_new (proxies (fst (RunE fuel g)))
                  (fst (newLogger (environment g) (environment g))))
               data))
  /\ trace (fst (RunE fuel g))
     = trace g
       ++ [EvChdir (workingDir g); EvLog "info" "loading proxy from config";
           EvConfigNew (configPath g); EvConfigRead;
           EvNewProxy JavaEdition; EvNewProxy BedrockEdition; EvNewInternalBus;
           EvLog "info" "loading plugins"; EvLoadPlugins;
           EvLog "info" "enabling plugins"; EvEnablePlugins;
           EvLog "info" "starting proxies"]
       ++ List.map EvListenAndServe range_order
       ++ [EvAwaitSignal; EvDisablePlugins; EvSync].
Proof.
  intros Hlog Hcd Hp Hnew Hread Hjava Hjp Hbed Hbp.
  rewrite (RunE_reaches_serve fuel g Hlog Hcd Hp).
  unfold RunE_serve. cbn [emit set_logger configPath].
  rewrite Hnew, Hread, Hjava, Hjp, Hbed, Hbp.
  cbn [emit set_proxy set_pluginManager proxies logger pluginManager trace].
  rewrite listen_all.
  2: { intros n. cbn [proxies]. destruct n; cbn; discriminate. }
  match goal with
  | |- context [emit_all ?g0 ?evs] =>
      destruct (emit_all_fields evs g0) as (Ht & Hpr & Hpm & _ & _);
        set (served := emit_all g0 evs) in *
  end.
  cbn [snd fst deferred_Sync deferred_DisablePlugins emit set_pluginManager
       proxies pluginManager trace].
  rewrite Hpr, Hpm, Ht.
  split; [reflexivity|]. split; [reflexivity|]. split; [reflexivity|].
  split; [reflexivity|].
  cbn [trace emit set_proxy set_pluginManager set_logger].
  rewrite <- !List.app_assoc. reflexivity.
Qed.

(** *** The reload *)

Definition is_reload_step (ev : Event) : bool :=
  match ev with
  | EvProxyReload _ | EvLog _ _ => true
  | _ => false
  end.

(** The proxy of [n] after its reload with the configuration [prxCfgs n]. *)
Definition reloaded (prxCfgs : Edition -> ProxyConfig) (n : Edition) (p : Proxy) : Proxy :=
  fst (Proxy_Reload p (prxCfgs n)).

Lemma reload_all_fields (prxCfgs : Edition -> ProxyConfig) (order : list Edition) :
  forall g,
    pluginManager (fold_left (reload_proxy prxCfgs) order g) = pluginManager g
    /\ exists evs,
         trace (fold_left (reload_proxy prxCfgs) order g) = trace g ++ evs
         /\ forallb is_reload_step evs = true.
Proof.
  induction order as [|n order IH]; intros g; cbn [fold_left].
  - split; [reflexivity|]. exists []. rewrite List.app_nil_r. split; reflexivity.
  - destruct (IH (reload_proxy prxCfgs g n)) as (Hpm & evs & Ht & Hq).
    rewrite Hpm, Ht. unfold reload_proxy.
    destruct (proxies g n) as [p|];
      [|split; [reflexivity|]; exists evs; split; [reflexivity | exact Hq]].
    destruct (Proxy_Reload p (prxCfgs n)) as [p' [err|]];
      cbn [emit set_proxy pluginManager trace]; (split; [reflexivity|]).
    + exists ([EvProxyReload n; EvLog "error" "failed to reload proxy"] ++ evs).
      rewrite <- !List.app_assoc. split; [reflexivity | exact Hq].
    + exists ([EvProxyReload n] ++ evs).
      rewrite <- !List.app_assoc. split; [reflexivity | exact Hq].
Qed.

Lemma reload_proxy_proxies (prxCfgs : Edition -> ProxyConfig) (g : Globals) (n m : Edition) :
  proxies (reload_proxy prxCfgs g n) m
  = if Edition_eqb m n then option_map (reloaded prxCfgs n) (proxies g n)
    else proxies g m.
Proof.
  unfold reload_proxy, reloaded.
  destruct (proxies g n) as [p|] eqn:E.
  - cbn [option_map].
    destruct (Proxy_Reload p (prxCfgs n)) as [p' [err|]];
      cbn [emit set_proxy proxies fst]; reflexivity.
  - destruct (Edition_eqb m n) eqn:Em; [|reflexivity].
    apply Edition_eqb_eq in Em. subst m. exact E.
Qed.

Lemma reload_all_proxies (prxCfgs : Edition -> ProxyConfig) (order : list Edition) :
  List.NoDup order ->
  forall g m,
    proxies (fold_left (reload_proxy prxCfgs) order g) m
    = if existsb (Edition_eqb m) order
      then option_map (reloaded prxCfgs m) (proxies g m)
      else proxies g m.
Proof.
  induction 1 as [|n order Hn Hnd IH]; intros g m; cbn [fold_left existsb];
    [reflexivity|].
  rewrite IH, !reload_proxy_proxies.
  destruct (Edition_eqb m n) eqn:Em; cbn [orb].
  - apply Edition_eqb_eq in Em. subst m.
    replace (existsb (Edition_eqb n) order) with false; [reflexivity|].
    symmetry. apply not_true_is_false. intros Hex.
    apply List.existsb_exists in Hex. destruct Hex as (x & Hx & Heq).
    apply Edition_eqb_eq in Heq. subst x. contradiction.
  - reflexivity.
Qed.

(** [onConfigChange] when both configurations parse. *)
Lemma onConfigChange_parsed (cfg : ConfigMap) (g : Globals)
  (javaPrxCfg bedrockPrxCfg : ProxyConfig) :
  java_NewProxyConfigFromMap cfg = inr javaPrxCfg ->
  bedrock_NewProxyConfigFromMap cfg = inr bedrockPrxCfg ->
  onConfigChange cfg g
  = let g1 := fold_left (reload_proxy (config_of javaPrxCfg bedrockPrxCfg)) range_order
                (emit (emit g EvLock) (EvLog "debug" "Reloading proxies")) in
    let g2 := emit g1 (EvLog "debug" "Reloading plugins") in
    emit (emit (set_pluginManager g2 (ReloadPlugins (pluginManager g2) cfg))
            EvReloadPlugins) EvUnlock.
Proof.
  intros Hj Hb. unfold onConfigChange. rewrite Hj, Hb. reflexivity.
Qed.

(** X16: when both configurations parse, every proxy that [range] visits is
    reloaded with the configuration of its own edition, whatever the order
    of the visit, and a proxy it does not visit is left as it is. *)
Theorem onConfigChange_reloads_each (cfg : ConfigMap) (g : Globals)
  (javaPrxCfg bedrockPrxCfg : ProxyConfig) (n : Edition) :
  java_NewProxyConfigFromMap cfg = inr javaPrxCfg ->
  bedrock_NewProxyConfigFromMap cfg = inr bedrockPrxCfg ->
  List.NoDup range_order ->
  proxies (onConfigChange cfg g) n
  = if existsb (Edition_eqb n) range_order
    then option_map (reloaded (config_of javaPrxCfg bedrockPrxCfg) n) (proxies g n)
    else proxies g n.
Proof.
  intros Hj Hb Hnd. rewrite (onConfigChange_parsed cfg g _ _ Hj Hb).
  cbn zeta. cbn [emit set_pluginManager proxies].
  rewrite (reload_all_proxies _ _ Hnd). reflexivity.
Qed.

Lemma onConfigChange_reloads_plugins_aux (cfg : ConfigMap) (g : Globals)
  (javaPrxCfg bedrockPrxCfg : ProxyConfig) :
  java_NewProxyConfigFromMap cfg = inr javaPrxCfg ->
  bedrock_NewProxyConfigFromMap cfg = inr bedrockPrxCfg ->
  exists evs,
    trace (onConfigChange cfg g)
    = trace g ++ [EvLock; EvLog "debug" "Reloading proxies"] ++ evs
      ++ [EvLog "debug" "Reloading plugins"; EvReloadPlugins; EvUnlock]
    /\ forallb is_reload_step evs = true.
Proof.
  intros Hj Hb. rewrite (onConfigChange_parsed cfg g _ _ Hj Hb). cbn zeta.
  destruct (reload_all_fields (config_of javaPrxCfg bedrockPrxCfg) range_order
              (emit (emit g EvLock) (EvLog "debug" "Reloading proxies")))
    as (_ & evs & Ht & Hq).
  cbn [emit set_pluginManager trace].
  rewrite Ht. cbn [emit trace].
  exists evs. split; [|exact Hq].
  rewrite <- !List.app_assoc. reflexivity.
Qed.

(** X17: when both configurations parse, the plugins are reloaded once, after
    the proxies and before the unlock, also when the reload of a proxy
    fails: such a failure is logged and the loop goes on. *)
Theorem onConfigChange_reloads_plugins (cfg : ConfigMap) (g : Globals)
  (javaPrxCfg bedrockPrxCfg : ProxyConfig) :
  java_NewProxyConfigFromMap cfg = inr javaPrxCfg ->
  bedrock_NewProxyConfigFromMap cfg = inr bedrockPrxCfg ->
  pluginManager (onConfigChange cfg g) = ReloadPlugins (pluginManager g) cfg
  /\ exists evs,
       trace (onConfigChange cfg g)
       = trace g ++ [EvLock; EvLog "debug" "Reloading proxies"] ++ evs
         ++ [EvLog "debug" "Reloading plugins"; EvReloadPlugins; EvUnlock]
       /\ forallb is_reload_step evs = true.
Proof.
  intros Hj Hb. rewrite (onConfigChange_parsed cfg g _ _ Hj Hb). cbn zeta.
  destruct (reload_all_fields (config_of javaPrxCfg bedrockPrxCfg) range_order
              (emit (emit g EvLock) (EvLog "debug" "Reloading proxies")))
    as (Hpm & evs & Ht & Hq).
  cbn [emit set_pluginManager pluginManager trace].
  rewrite Hpm, Ht. cbn [emit pluginManager trace].
  split; [reflexivity|]. exists evs. split; [|exact Hq].
  rewrite <- !List.app_assoc. reflexivity.
Qed.

(** X18: the mutex is taken first and released last on every path of
    [onConfigChange], and nowhere in between. *)
Theorem onConfigChange_locks (cfg : ConfigMap) (g : Globals) :
  exists mid,
    trace (onConfigChange cfg g) = trace g ++ EvLock :: mid ++ [EvUnlock]
    /\ forallb (fun ev => negb (is_lock_event ev)) mid = true.
Proof.
  destruct (java_NewProxyConfigFromMap cfg) as [e|jc] eqn:Hj.
  { exists [EvLog "error" "failed to load java config"].
    unfold onConfigChange. rewrite Hj. cbn [emit trace].
    rewrite <- !List.app_assoc. split; reflexivity. }
  destruct (bedrock_NewProxyConfigFromMap cfg) as [e|bc] eqn:Hb.
  { exists [EvLog "error" "failed to load bedrock config"].
    unfold onConfigChange. rewrite Hj, Hb. cbn [emit trace].
    rewrite <- !List.app_assoc. split; reflexivity. }
  destruct (onConfigChange_reloads_plugins_aux cfg g jc bc Hj Hb) as (evs & Ht & Hq).
  exists ([EvLog "debug" "Reloading proxies"] ++ evs
          ++ [EvLog "debug" "Reloading plugins"; EvReloadPlugins]).
  split.
  - rewrite Ht. cbn [app]. rewrite <- !List.app_assoc. reflexivity.
  - cbn [app forallb is_lock_event negb andb].
    rewrite List.forallb_app. cbn [forallb is_lock_event negb andb].
    rewrite Bool.andb_true_r.
    apply List.forallb_forall. intros ev Hev.
    pose proof (proj1 (List.forallb_forall _ _) Hq ev Hev) as Hstep.
    destruct ev; cbn in Hstep |- *; congruence.
Qed.

End Root.

Arguments configPath {Logger Proxy PluginManager}.
Arguments workingDir {Logger Proxy PluginManager}.
Arguments environment {Logger Proxy PluginManager}.
Arguments logger {Logger Proxy PluginManager}.
Arguments pluginManager {Logger Proxy PluginManager}.
Arguments proxies {Logger Proxy PluginManager}.
Arguments fs {Logger Proxy PluginManager}.
Arguments trace {Logger Proxy PluginManager}.
Arguments emit {Logger Proxy PluginManager}.
Arguments set_logger {Logger Proxy PluginManager}.

(** *** A small world to run the root command in

    The configuration says whether its Java and its Bedrock part parse; a
    proxy is the name of the configuration it runs; the plugin manager counts
    its reloads. The bundle holds [config.yml] and [plugins/api.yml]. *)
Module Stub.

Definition zap_New : option unit * option error := (Some tt, None).

Definition parse_java (cfg : bool * bool) : Result string :=
  if fst cfg then inr "java"%string else inl (errors_New "java: no listeners").

Definition parse_bedrock (cfg : bool * bool) : Result string :=
  if snd cfg then inr "bedrock"%string else inl (errors_New "bedrock: no listeners").

Definition Proxy_Reload (p cfg : string) : string * option error := (cfg, None).

Definition ReloadPlugins (pm : nat) (cfg : bool * bool) : nat := S pm.

Definition range_order : list Edition := [JavaEdition; BedrockEdition].

Definition files_ReadDir (path : string) : Result (list DirEntry) :=
  if String.eqb path "configs/" then
    inr [ {| Name := "config.yml"; IsDir := false |};
          {| Name := "plugins"; IsDir := true |} ]
  else if String.eqb path "configs//plugins" then
    inr [ {| Name := "api.yml"; IsDir := false |} ]
  else inl (PathError "open" path ENOENT).

Definition files_ReadFile (path : string) : Result (list byte) :=
  inr (bytes_of_string "bundled").

(** [filepath.Join] of a cleaned directory and a base name. *)
Definition filepath_Join (dir name : string) : string :=
  if String.eqb dir "." then name else (dir +:+ "/" +:+ name)%string.

Definition safeWriteFromEmbeddedFS :=
  Cmd.safeWriteFromEmbeddedFS (fun _ => false) (fun _ _ => None) (fun _ _ => None)
    files_ReadDir files_ReadFile filepath_Join.

Definition RunE :=
  Cmd.RunE unit unit (bool * bool) string string nat
    zap_New zap_New (fun _ => None)
    (fun _ => false) (fun _ _ => None) (fun _ _ => None)
    files_ReadDir files_ReadFile filepath_Join
    (fun _ => inr tt) (fun _ => inr (true, true))
    parse_java parse_bedrock (fun cfg => inr cfg)
    (fun _ _ => O) (fun pm _ => pm) (fun pm => pm) (fun pm => pm)
    range_order.

Definition onConfigChange :=
  Cmd.onConfigChange unit (bool * bool) string string nat
    parse_java parse_bedrock Proxy_Reload ReloadPlugins range_order.

(** The operator's own [config.yml] is in the working directory. *)
Definition own_config : gmap string Node :=
  {[ "config.yml"%string := File (bytes_of_string "mine") ]}.

(** The proxies run their first configuration. *)
Definition running (env : string) : Globals unit string nat :=
  {| configPath := "config.yml"; workingDir := "."; environment := env;
     logger := Some tt; pluginManager := O;
     proxies := fun _ => Some "first"%string;
     fs := own_config; trace := [] |}.

Example safeWrite_fills_the_gaps :
  let '(fs', out) := safeWriteFromEmbeddedFS 2 configDefaultPath "." own_config in
  out = Returned None
  /\ fs' !! "config.yml"%string = Some (File (bytes_of_string "mine"))
  /\ fs' !! "plugins"%string = Some Dir
  /\ fs' !! "plugins/api.yml"%string = Some (File (bytes_of_string "bundled")).
Proof. vm_compute. repeat split. Qed.

Example onConfigChange_reloads :
  let g := onConfigChange (true, true) (running "prod") in
  proxies g JavaEdition = Some "java"%string
  /\ proxies g BedrockEdition = Some "bedrock"%string
  /\ pluginManager g = 1%nat
  /\ trace g = [EvLock; EvLog "debug" "Reloading proxies";
                EvProxyReload JavaEdition; EvProxyReload BedrockEdition;
                EvLog "debug" "Reloading plugins"; EvReloadPlugins; EvUnlock].
Proof. vm_compute. repeat split. Qed.

End Stub.

(** The claims in the small world. *)

Lemma onConfigChange_parse_failure_bedrock :
  proxies (Stub.onConfigChange (true, false) (Stub.running "prod"))
  = proxies (Stub.running "prod")
  /\ pluginManager (Stub.onConfigChange (true, false) (Stub.running "prod"))
     = pluginManager (Stub.running "prod").
Proof.
  pose proof (onConfigChange_parse_failure unit (bool * bool) string string nat
                Stub.parse_java Stub.parse_bedrock Stub.Proxy_Reload
                Stub.ReloadPlugins Stub.range_order
                (true, false) (Stub.running "prod")
                (or_intror (ex_intro _ (errors_New "bedrock: no listeners") eq_refl)))
    as (_ & Hproxies & Hplugins & _).
  exact (conj Hproxies Hplugins).
Defined.

Lemma environment_staging :
  Stub.RunE 2 (Stub.running "staging")
  = (set_logger (Stub.running "staging") None,
     Returned (Some (unsupported_environment "staging"))).
Proof.
  refine (proj1 (proj2 (proj2 (proj2 (environment_dev_or_prod
            unit unit (bool * bool) string string nat
            Stub.zap_New Stub.zap_New (fun _ => None)
            (fun _ => false) (fun _ _ => None) (fun _ _ => None)
            Stub.files_ReadDir Stub.files_ReadFile Stub.filepath_Join
            (fun _ => inr tt) (fun _ => inr (true, true))
            Stub.parse_java Stub.parse_bedrock (fun cfg => inr cfg)
            (fun _ _ => O) (fun pm _ => pm) (fun pm => pm) (fun pm => pm)
            Stub.range_order 2 (Stub.running "staging"))) _ _))).
  - discriminate.
  - discriminate.
Defined.


(** The other properties in the small world. *)

Lemma safeWriteFromEmbeddedFS_returns_bundle :
  exists fs' r,
    Stub.safeWriteFromEmbeddedFS 2 configDefaultPath "." Stub.own_config
    = (fs', Returned r).
Proof.
  apply (safeWriteFromEmbeddedFS_returns (fun _ => false) (fun _ _ => None)
           (fun _ _ => None) Stub.files_ReadDir Stub.files_ReadFile
           Stub.filepath_Join configDefaultPath 2).
  apply (depth_dir Stub.files_ReadDir configDefaultPath
           [ {| Name := "config.yml"; IsDir := false |};
             {| Name := "plugins"; IsDir := true |} ] 1);
    [reflexivity|].
  intros e [<-|[<-|[]]] Hdir; [discriminate Hdir|].
  apply (depth_dir Stub.files_ReadDir _ [ {| Name := "api.yml"; IsDir := false |} ] 0);
    [reflexivity|].
  intros e [<-|[]] Hdir'. discriminate Hdir'.
Defined.

Lemma safeWriteFromEmbeddedFS_again_own_config :
  Stub.safeWriteFromEmbeddedFS 1 configDefaultPath "."
    (fst (Stub.safeWriteFromEmbeddedFS 2 configDefaultPath "." Stub.own_config))
  = (fst (Stub.safeWriteFromEmbeddedFS 2 configDefaultPath "." Stub.own_config),
     Returned None).
Proof.
  apply (safeWriteFromEmbeddedFS_again (fun _ => false) (fun _ _ => None)
           (fun _ _ => None) Stub.files_ReadDir Stub.files_ReadFile
           Stub.filepath_Join 2 0 configDefaultPath "." Stub.own_config).
  vm_compute. reflexivity.
Defined.

(** A working directory that refuses every [Mkdir]. *)
Definition read_only (fs : gmap string Node) (name : string) : option Errno :=
  Some EACCES.

Lemma safeWriteFromEmbeddedFS_error_origin_read_only :
  Stub.files_ReadDir configDefaultPath = inl (PathError "mkdir" "plugins" EACCES)
  \/ exists entries e,
       Stub.files_ReadDir configDefaultPath = inr entries
       /\ In e entries
       /\ entry_failure read_only (fun _ _ => None) Stub.files_ReadFile
            Stub.filepath_Join configDefaultPath "." e
            (PathError "mkdir" "plugins" EACCES).
Proof.
  apply (safeWriteFromEmbeddedFS_error_origin (fun _ => false) read_only
           (fun _ _ => None) Stub.files_ReadDir Stub.files_ReadFile
           Stub.filepath_Join 2 configDefaultPath "." Stub.own_config Stub.own_config).
  vm_compute. reflexivity.
Defined.

(** The small world with a configuration file to read. *)
Definition RunE_reading (data : bool * bool) :=
  Cmd.RunE unit unit (bool * bool) string string nat
    Stub.zap_New Stub.zap_New (fun _ => None)
    (fun _ => false) (fun _ _ => None) (fun _ _ => None)
    Stub.files_ReadDir Stub.files_ReadFile Stub.filepath_Join
    (fun _ => inr tt) (fun _ => inr data)
    Stub.parse_java Stub.parse_bedrock (fun cfg => inr cfg)
    (fun _ _ => O) (fun pm _ => pm) (fun pm => pm) (fun pm => pm)
    Stub.range_order.

Lemma RunE_failure_serves_nothing_no_bedrock :
  pluginManager (fst (RunE_reading (true, false) 2 (Stub.running "prod")))
  = pluginManager (Stub.running "prod")
  /\ exists evs,
       trace (fst (RunE_reading (true, false) 2 (Stub.running "prod")))
       = trace (Stub.running "prod") ++ evs
       /\ forallb before_serving evs = true.
Proof.
  apply (RunE_failure_serves_nothing unit unit (bool * bool) string string nat
           Stub.zap_New Stub.zap_New (fun _ => None)
           (fun _ => false) (fun _ _ => None) (fun _ _ => None)
           Stub.files_ReadDir Stub.files_ReadFile Stub.filepath_Join
           (fun _ => inr tt) (fun _ => inr (true, false))
           Stub.parse_java Stub.parse_bedrock (fun cfg => inr cfg)
           (fun _ _ => O) (fun pm _ => pm) (fun pm => pm) (fun pm => pm)
           Stub.range_order 2 (Stub.running "prod")
           (errors_New "bedrock: no listeners")).
  vm_compute. reflexivity.
Defined.

Lemma RunE_deferred_prod :
  exists pre,
    trace (fst (Stub.RunE 2 (Stub.running "prod")))
    = pre ++ [EvAwaitSignal; EvDisablePlugins; EvSync].
Proof.
  exact (RunE_deferred unit unit (bool * bool) string string nat
           Stub.zap_New Stub.zap_New (fun _ => None)
           (fun _ => false) (fun _ _ => None) (fun _ _ => None)
           Stub.files_ReadDir Stub.files_ReadFile Stub.filepath_Join
           (fun _ => inr tt) (fun _ => inr (true, true))
           Stub.parse_java Stub.parse_bedrock (fun cfg => inr cfg)
           (fun _ _ => O) (fun pm _ => pm) (fun pm => pm) (fun pm => pm)
           Stub.range_order 2 (Stub.running "prod") eq_refl).
Defined.

Lemma RunE_bedrock_failure_no_bedrock :
  snd (RunE_reading (true, false) 2 (Stub.running "prod"))
  = Returned (Some (errors_New "bedrock: no listeners"))
  /\ proxies (fst (RunE_reading (true, false) 2 (Stub.running "prod"))) JavaEdition
     = Some "java"%string
  /\ proxies (fst (RunE_reading (true, false) 2 (Stub.running "prod"))) BedrockEdition
     = proxies (Stub.running "prod") BedrockEdition.
Proof.
  apply (RunE_bedrock_failure unit unit (bool * bool) string string nat
           Stub.zap_New Stub.zap_New (fun _ => None)
           (fun _ => false) (fun _ _ => None) (fun _ _ => None)
           Stub.files_ReadDir Stub.files_ReadFile Stub.filepath_Join
           (fun _ => inr tt) (fun _ => inr (true, false))
           Stub.parse_java Stub.parse_bedrock (fun cfg => inr cfg)
           (fun _ _ => O) (fun pm _ => pm) (fun pm => pm) (fun pm => pm)
           Stub.range_order 2 (Stub.running "prod") tt (true, false)
           "java"%string "java"%string (errors_New "bedrock: no listeners")).
  - reflexivity.
  - reflexivity.
  - right. vm_compute. intros H. discriminate H.
  - reflexivity.
  - reflexivity.
  - reflexivity.
  - reflexivity.
  - left. reflexivity.
Defined.

Lemma RunE_clean_run_prod :
  snd (Stub.RunE 2 (Stub.running "prod")) = Returned None
  /\ proxies (fst (Stub.RunE 2 (Stub.running "prod"))) JavaEdition = Some "java"%string
  /\ proxies (fst (Stub.RunE 2 (Stub.running "prod"))) BedrockEdition
     = Some "bedrock"%string
  /\ pluginManager (fst (Stub.RunE 2 (Stub.running "prod"))) = O
  /\ trace (fst (Stub.RunE 2 (Stub.running "prod")))
     = [EvChdir "."; EvLog "info" "loading proxy from config";
        EvConfigNew "config.yml"; EvConfigRead;
        EvNewProxy JavaEdition; EvNewProxy BedrockEdition; EvNewInternalBus;
        EvLog "info" "loading plugins"; EvLoadPlugins;
        EvLog "info" "enabling plugins"; EvEnablePlugins;
        EvLog "info" "starting proxies";
        EvListenAndServe JavaEdition; EvListenAndServe BedrockEdition;
        EvAwaitSignal; EvDisablePlugins; EvSync].
Proof.
  apply (RunE_clean_run unit unit (bool * bool) string string nat
           Stub.zap_New Stub.zap_New (fun _ => None)
           (fun _ => false) (fun _ _ => None) (fun _ _ => None)
           Stub.files_ReadDir Stub.files_ReadFile Stub.filepath_Join
           (fun _ => inr tt) (fun _ => inr (true, true))
           Stub.parse_java Stub.parse_bedrock (fun cfg => inr cfg)
           (fun _ _ => O) (fun pm _ => pm) (fun pm => pm) (fun pm => pm)
           Stub.range_order 2 (Stub.running "prod") tt (true, true)
           "java"%string "bedrock"%string "java"%string "bedrock"%string).
  - reflexivity.
  - reflexivity.
  - right. vm_compute. intros H. discriminate H.
  - reflexivity.
  - reflexivity.
  - reflexivity.
  - reflexivity.
  - reflexivity.
  - reflexivity.
Defined.

Lemma onConfigChange_reloads_each_java :
  proxies (Stub.onConfigChange (true, true) (Stub.running "prod")) JavaEdition
  = Some "java"%string.
Proof.
  apply (onConfigChange_reloads_each unit (bool * bool) string string nat
           Stub.parse_java Stub.parse_bedrock Stub.Proxy_Reload Stub.ReloadPlugins
           Stub.range_order (true, true) (Stub.running "prod")
           "java"%string "bedrock"%string JavaEdition).
  - reflexivity.
  - reflexivity.
  - constructor; [intros [H|[]]; discriminate H|].
    constructor; [intros []|]. constructor.
Defined.

Lemma onConfigChange_reloads_plugins_prod :
  pluginManager (Stub.onConfigChange (true, true) (Stub.running "prod")) = 1%nat
  /\ exists evs,
       trace (Stub.onConfigChange (true, true) (Stub.running "prod"))
       = [] ++ [EvLock; EvLog "debug" "Reloading proxies"] ++ evs
         ++ [EvLog "debug" "Reloading plugins"; EvReloadPlugins; EvUnlock]
       /\ forallb is_reload_step evs = true.
Proof.
  apply (onConfigChange_reloads_plugins unit (bool * bool) string string nat
           Stub.parse_java Stub.parse_bedrock Stub.Proxy_Reload Stub.ReloadPlugins
           Stub.range_order (true, true) (Stub.running "prod")
           "java"%string "bedrock"%string); reflexivity.
Defined.

End Cmd.
